(** * Translation of Cosmos events into Ethereum logs

    A shallow embedding of [core/vm/precompile/event/event.go]: the
    [PrecompileEvent] descriptor and its methods [MakeTopics], [MakeData],
    [ValidateAttributes] and [getValueDecoder].

    The Go methods receive two pointers, the descriptor [pe] and the Cosmos
    [event].  The two pointees form the state that every computation below
    threads explicitly, so that what a call leaves in memory can be stated.
    A Go run-time panic (index out of range, call of a nil func) is an
    outcome of its own. *)

From Stdlib Require Import ZArith Lia Ascii.
From stdpp Require Import base option list strings gmap.

Set Default Proof Using "Type".
Open Scope Z_scope.

(** ** Go values *)

(** A Go slice used as a return value: [None] is the nil slice. *)
Definition slice (A : Type) : Type := option (list A).

(** The errors of this package.  The first three are the [fmt.Errorf] calls
    of [event.go]; [External] stands for an error made elsewhere (by a value
    decoder or by the abi package) and is passed through unchanged. *)
Inductive error : Type :=
| NoAttributeKey (eventType argName : string)
| NotEnoughAttributes (eventType : string)
| NoValueDecoder (attrKey : string)
| External (msg : string).

(** The message of an error, as [fmt.Errorf] formats it. *)
Definition Error (e : error) : string :=
  match e with
  | NoAttributeKey eventType argName =>
      "no attribute key found for event " +:+ eventType +:+ " argument " +:+ argName
  | NotEnoughAttributes eventType =>
      "not enough event attributes provided for event " +:+ eventType
  | NoValueDecoder attrKey =>
      "event attribute key " +:+ attrKey +:+ " is not mapped to a value decoder function"
  | External msg => msg
  end.

(** Result of a conceptual step that either yields a value or fails. *)
Inductive res (A : Type) : Type :=
| Ok (a : A)
| Err (e : error).
Arguments Ok {A} a.
Arguments Err {A} e.

(** Outcome of running Go code: it returns, or it panics. *)
Inductive exec (A : Type) : Type :=
| Done (a : A)
| Panic (why : string).
Arguments Done {A} a.
Arguments Panic {A} why.

(** How a block (the body of a [for ... range] or of an [if]) ends: control
    falls through to what follows, with the updated locals, or the block
    returns from the enclosing function. *)
Inductive flow (L R : Type) : Type :=
| Next (s : L)
| Return (r : R).
Arguments Next {L R} s.
Arguments Return {L R} r.

(** [sdk.Event] and its attributes: ordered key/value string pairs. *)
Record Attribute : Type := { Key : string; Value : string }.
Record Event : Type := { Type_ : string; Attributes : list Attribute }.

(** ** The attribute locator *)

(** Modelled from the spec: [notFound] is declared outside the files at
    hand.  Section 4.2 asks for a sentinel that is distinguishable from
    index 0 (and so from every index); a negative [int] is one. *)
Definition notFound : Z := -1.

(** Modelled from the spec: [searchAttributesForArg] is declared outside the
    files at hand.  Section 4.2: scan the attributes in order and return the
    index of the first one whose key equals the argument name, [notFound]
    when there is none.  [searchFrom i] is the scan with [i] the index of
    the head of what remains. *)
Fixpoint searchFrom (i : Z) (attributes : list Attribute) (argName : string) : Z :=
  match attributes with
  | [] => notFound
  | attribute :: rest =>
      if decide (Key attribute = argName) then i
      else searchFrom (i + 1) rest argName
  end.

(** Modelled from the spec: [searchAttributesForArg], the scan of section
    4.2 from the first attribute on. *)
Definition searchAttributesForArg (attributes : list Attribute) (argName : string) : Z :=
  searchFrom 0 attributes argName.

(** ** Computations over a memory *)

(** A computation reads and may change a memory of type [St], and may panic. *)
Definition M (St A : Type) : Type := St -> exec (A * St).

Definition ret {St A} (a : A) : M St A := fun m => Done (a, m).

Definition bind {St A B} (c : M St A) (k : A -> M St B) : M St B :=
  fun m =>
    match c m with
    | Done (a, m') => k a m'
    | Panic why => Panic why
    end.

Definition panic {St A} (why : string) : M St A := fun _ => Panic why.

Notation "'let*' x ':=' c 'in' k" := (bind c (fun x => k))
  (at level 10, x pattern, c at level 100, k at level 200).

(** [s[i]] on a slice: a panic when [i] is out of range. *)
Definition index {St A} (s : list A) (i : Z) : M St A :=
  if decide (0 <= i) then
    match s !! Z.to_nat i with
    | Some a => ret a
    | None => panic "index out of range"
    end
  else panic "index out of range".

(** [s[i] = x] on a local slice: a panic when [i] is out of range. *)
Definition store {St A} (s : list A) (i : nat) (x : A) : M St (list A) :=
  if decide (i < length s)%nat then ret (<[i := x]> s)
  else panic "index out of range".

(** [for i, a := range l { body }] where the body may return from the
    enclosing function; [s] holds the locals the body assigns. *)
Fixpoint rangeLoop {St A L R} (body : nat -> A -> L -> M St (flow L R))
    (i : nat) (l : list A) (s : L) : M St (flow L R) :=
  match l with
  | [] => ret (Next s)
  | a :: l' =>
      let* r := body i a s in
      match r with
      | Next s' => rangeLoop body (S i) l' s'
      | Return v => ret (Return v)
      end
  end.

(** ** Go types of the package *)

Section Types.

(** [abi.Type] is opaque here.  Go's [any]: [dyn] is the type of the non-nil
    interface values, [None] is the nil interface. *)
Context {abiType dyn : Type}.

Definition any : Type := option dyn.

(** [abi.Argument]: a name and a type. *)
Record Argument : Type := { Name : string; ArgType : abiType }.

(** [valueDecoder] is [func(string) (any, error)]; as a Go func value it may
    be nil ([None]). *)
Definition decodeFn : Type := string -> any * option error.
Definition valueDecoder : Type := option decodeFn.

(** [ValueDecoders] is [map[string]valueDecoder]; as a Go map it may be nil
    ([None]), and an entry may hold a nil func. *)
Definition ValueDecoders : Type := option (gmap string valueDecoder).

(** Go's [m[k]] on such a map: the zero value (a nil func) when the map is
    nil or has no entry for [k]. *)
Definition mapIndex (m : ValueDecoders) (k : string) : valueDecoder :=
  match m with
  | None => None
  | Some entries => default None (entries !! k)
  end.

(** Calling a func value: a panic when it is nil. *)
Definition call {St} (decode : valueDecoder) (value : string) : M St (any * option error) :=
  match decode with
  | Some f => ret (f value)
  | None => panic "invalid memory address or nil pointer dereference"
  end.

End Types.

Arguments Argument : clear implicits.
Arguments any : clear implicits.
Arguments decodeFn : clear implicits.
Arguments valueDecoder : clear implicits.
Arguments ValueDecoders : clear implicits.

(** ** What the package imports *)

(** [Hash] is [common.Hash].
    - [hashDyn]: a [common.Hash] stored in an interface, as in
      [filterQuery[0] = pe.id];
    - [defaultCosmosValueDecoders]: the process-wide table of default
      decoders, declared outside the files at hand;
    - [topicRule]: the ABI's rule turning one indexed value into its topic
      hash, which can refuse a value (inside [abi.MakeTopics]);
    - [PackValues]: [abi.Arguments.PackValues], which packs the decoded
      values of the given arguments into bytes, or fails. *)
Class Imports (Hash abiType dyn : Type) : Type := {
  hashDyn : Hash -> dyn;
  defaultCosmosValueDecoders : ValueDecoders dyn;
  topicRule : any dyn -> res Hash;
  PackValues : list (Argument abiType) -> list (any dyn) -> slice Byte.byte * option error
}.

Section Translation.

Context {Address : Type} `{imports : Imports Hash abiType dyn}.

(** Modelled from the spec: [abi.MakeTopics] is imported.  Section 4.4,
    steps 3 and 4: every value of the query becomes one topic hash by the
    ABI's rule for indexed arguments; the hashes come in the order of the
    query, one list of hashes for each query given. *)
Fixpoint abi_topics (filter : list (any dyn)) : res (list Hash) :=
  match filter with
  | [] => Ok []
  | rule :: rest =>
      match topicRule rule with
      | Err e => Err e
      | Ok topic =>
          match abi_topics rest with
          | Err e => Err e
          | Ok topics => Ok (topic :: topics)
          end
      end
  end.

(** Modelled from the spec: [abi.MakeTopics] takes any number of queries
    and turns each into its list of topics. *)
Fixpoint abi_queries (query : list (list (any dyn))) : res (list (list Hash)) :=
  match query with
  | [] => Ok []
  | filter :: rest =>
      match abi_topics filter with
      | Err e => Err e
      | Ok topics =>
          match abi_queries rest with
          | Err e => Err e
          | Ok more => Ok (topics :: more)
          end
      end
  end.

(** Modelled from the spec: [abi.MakeTopics], with its Go result: the
    topics and a nil error, or nil and the error of the value refused. *)
Definition abi_MakeTopics (query : list (list (any dyn))) : slice (list Hash) * option error :=
  match abi_queries query with
  | Ok topics => (Some topics, None)
  | Err e => (None, Some e)
  end.

(** ** The descriptor *)

Record PrecompileEvent : Type := {
  moduleAddr : Address;
  id : Hash;
  indexedInputs : list (Argument abiType);
  nonIndexedInputs : list (Argument abiType);
  customValueDecoders : ValueDecoders dyn
}.

(** The memory of a call: the descriptor [pe] points to and the event
    [event] points to. *)
Definition Memory : Type := (PrecompileEvent * Event)%type.

(** Reading through the two pointers. *)
Definition load_pe : M Memory PrecompileEvent := fun m => Done (fst m, m).
Definition load_event : M Memory Event := fun m => Done (snd m, m).

(** ** The methods of [PrecompileEvent] *)

Definition ModuleAddress : M Memory Address :=
  let* pe := load_pe in
  ret (moduleAddr pe).

Definition getValueDecoder (attrKey : string) : M Memory (valueDecoder dyn * option error) :=
  (* try custom precompile event attributes *)
  let* pe := load_pe in
  let* custom :=
    match customValueDecoders pe with
    | Some _ =>
        let* pe := load_pe in
        let decode := mapIndex (customValueDecoders pe) attrKey in
        match decode with
        | Some _ => ret (Return (decode, None))
        | None => ret (Next tt)
        end
    | None => ret (Next tt)
    end in
  match custom with
  | Return v => ret v
  | Next _ =>
      (* try default Cosmos SDK event attributes *)
      let decode := mapIndex defaultCosmosValueDecoders attrKey in
      match decode with
      | Some _ => ret (decode, None)
      | None =>
          (* no value decoder function was found for attribute key *)
          ret (None, Some (NoValueDecoder attrKey))
      end
  end.

(** The body of the loop of [MakeTopics] over [pe.indexedInputs]. *)
Definition topicsBody (i : nat) (arg : Argument abiType) (filterQuery : list (any dyn))
    : M Memory (flow (list (any dyn)) (slice Hash * option error)) :=
  let* event := load_event in
  let attrIdx := searchAttributesForArg (Attributes event) (Name arg) in
  if decide (attrIdx = notFound) then
    let* event := load_event in
    ret (Return (None, Some (NoAttributeKey (Type_ event) (Name arg))))
  else
    (* convert attribute value (string) to geth compatible type *)
    let* event := load_event in
    let* attr := index (Attributes event) attrIdx in
    let* (decode, err) := getValueDecoder (Key attr) in
    match err with
    | Some e => ret (Return (None, Some e))
    | None =>
        let* (value, err) := call decode (Value attr) in
        match err with
        | Some e => ret (Return (None, Some e))
        | None =>
            let* filterQuery := store filterQuery (i + 1) value in
            ret (Next filterQuery)
        end
    end.

Definition MakeTopics : M Memory (slice Hash * option error) :=
  let* pe := load_pe in
  let filterQuery : list (any dyn) := replicate (length (indexedInputs pe) + 1) None in
  let* pe := load_pe in
  let* filterQuery := store filterQuery 0 (Some (hashDyn (id pe))) in
  let* pe := load_pe in
  let* r := rangeLoop topicsBody 0 (indexedInputs pe) filterQuery in
  match r with
  | Return v => ret v
  | Next filterQuery =>
      (* convert the filter query to a slice of Topics hashes *)
      let '(topics, err) := abi_MakeTopics [filterQuery] in
      match err with
      | Some e => ret (None, Some e)
      | None =>
          match topics with
          | None => panic "index out of range"
          | Some topics =>
              let* topics0 := index topics 0 in
              ret (Some topics0, None)
          end
      end
  end.

(** The body of the loop of [MakeData] over [pe.nonIndexedInputs]. *)
Definition dataBody (i : nat) (arg : Argument abiType) (attrVals : list (any dyn))
    : M Memory (flow (list (any dyn)) (slice Byte.byte * option error)) :=
  let* event := load_event in
  let attrIdx := searchAttributesForArg (Attributes event) (Name arg) in
  if decide (attrIdx = notFound) then
    let* event := load_event in
    ret (Return (None, Some (NoAttributeKey (Type_ event) (Name arg))))
  else
    (* convert attribute value (string) to geth compatible type *)
    let* event := load_event in
    let* attr := index (Attributes event) attrIdx in
    let* (decode, err) := getValueDecoder (Key attr) in
    match err with
    | Some e => ret (Return (None, Some e))
    | None =>
        let* (value, err) := call decode (Value attr) in
        match err with
        | Some e => ret (Return (None, Some e))
        | None =>
            let* attrVals := store attrVals i value in
            ret (Next attrVals)
        end
    end.

Definition MakeData : M Memory (slice Byte.byte * option error) :=
  let* pe := load_pe in
  let attrVals : list (any dyn) := replicate (length (nonIndexedInputs pe)) None in
  let* pe := load_pe in
  let* r := rangeLoop dataBody 0 (nonIndexedInputs pe) attrVals in
  match r with
  | Return v => ret v
  | Next attrVals =>
      (* pack the Cosmos event's attribute values into bytes *)
      let* pe := load_pe in
      let '(data, err) := PackValues (nonIndexedInputs pe) attrVals in
      match err with
      | Some e => ret (None, Some e)
      | None => ret (data, None)
      end
  end.

Definition ValidateAttributes : M Memory (option error) :=
  let* event := load_event in
  let* pe := load_pe in
  let* pe' := load_pe in
  if decide (length (Attributes event) < length (indexedInputs pe) + length (nonIndexedInputs pe'))%nat
  then
    let* event := load_event in
    ret (Some (NotEnoughAttributes (Type_ event)))
  else ret None.

End Translation.

(** ** What a call computes, as functions of the descriptor and the event

    The definitions of this section follow the words of the spec (sections
    4.2 to 4.5); the theorems below compare the methods above with them. *)

Section Functional.

Context {Address : Type} `{imports : Imports Hash abiType dyn}.

(** Section 4.2: the first attribute, in the order of the event, whose key
    is the argument name. *)
Definition firstAttribute (attributes : list Attribute) (argName : string) : option Attribute :=
  List.find (fun attribute => bool_decide (Key attribute = argName)) attributes.

(** Section 4.3: the overrides of the descriptor first, then the default
    table, [NoValueDecoder] when neither has a decode function. *)
Definition resolve (overrides : ValueDecoders dyn) (attrKey : string) : res (decodeFn dyn) :=
  match mapIndex overrides attrKey with
  | Some decode => Ok decode
  | None =>
      match mapIndex defaultCosmosValueDecoders attrKey with
      | Some decode => Ok decode
      | None => Err (NoValueDecoder attrKey)
      end
  end.

(** Sections 4.4 and 4.5, one argument: locate its attribute, resolve the
    decoder of the attribute's key, decode the attribute's value. *)
Definition argValue (pe : @PrecompileEvent Address Hash abiType dyn) (event : Event)
    (arg : Argument abiType) : res (any dyn) :=
  match firstAttribute (Attributes event) (Name arg) with
  | None => Err (NoAttributeKey (Type_ event) (Name arg))
  | Some attr =>
      match resolve (customValueDecoders pe) (Key attr) with
      | Err e => Err e
      | Ok decode =>
          match decode (Value attr) with
          | (_, Some e) => Err e
          | (value, None) => Ok value
          end
      end
  end.

(** The arguments in the order of the descriptor; the first failure ends
    the translation. *)
Fixpoint argValues (pe : @PrecompileEvent Address Hash abiType dyn) (event : Event)
    (args : list (Argument abiType)) : res (list (any dyn)) :=
  match args with
  | [] => Ok []
  | arg :: rest =>
      match argValue pe event arg with
      | Err e => Err e
      | Ok value =>
          match argValues pe event rest with
          | Err e => Err e
          | Ok values => Ok (value :: values)
          end
      end
  end.

(** Section 4.4: the identifier in slot 0, then the decoded indexed
    arguments, turned into topic hashes; nothing but the error on failure. *)
Definition topicsOf (pe : @PrecompileEvent Address Hash abiType dyn) (event : Event)
    : slice Hash * option error :=
  match argValues pe event (indexedInputs pe) with
  | Err e => (None, Some e)
  | Ok values =>
      match abi_topics (Some (hashDyn (id pe)) :: values) with
      | Err e => (None, Some e)
      | Ok topics => (Some topics, None)
      end
  end.

(** Section 4.5: the decoded non-indexed arguments, packed; nothing but the
    error on failure. *)
Definition dataOf (pe : @PrecompileEvent Address Hash abiType dyn) (event : Event)
    : slice Byte.byte * option error :=
  match argValues pe event (nonIndexedInputs pe) with
  | Err e => (None, Some e)
  | Ok values =>
      match PackValues (nonIndexedInputs pe) values with
      | (_, Some e) => (None, Some e)
      | (data, None) => (data, None)
      end
  end.

(** [fill j values l]: the slice [l] after the assignments
    [l[j] = v0], [l[j+1] = v1], ... of the values in order. *)
Fixpoint fill {A} (j : nat) (values : list A) (l : list A) : list A :=
  match values with
  | [] => l
  | v :: rest => fill (S j) rest (<[j := v]> l)
  end.

(** An event without the attributes whose key is [key]. *)
Definition withoutKey (key : string) (event : Event) : Event :=
  {| Type_ := Type_ event;
     Attributes := List.filter (fun attribute => negb (bool_decide (Key attribute = key)))
                     (Attributes event) |}.

End Functional.

(** ** A concrete setting: the transfer scenario of section 8

    Hashes and addresses are numbers (a 32-byte big-endian word and a
    20-byte one), ABI types are their names, and the values a decoder can
    yield are hashes, addresses, big integers and strings. *)

Module Scenario.

Inductive value : Type :=
| VHash (h : Z)
| VAddress (a : Z)
| VBigInt (n : Z)
| VString (s : string).

(** A fixed-size value is its own 32-byte word, left-padded; this setting
    has no content hash and refuses the dynamic values. *)
Definition rule (v : any value) : res Z :=
  match v with
  | Some (VHash h) => Ok h
  | Some (VAddress a) => Ok a
  | Some (VBigInt n) => Ok (n mod 2 ^ 256)
  | Some (VString _) => Err (External "unsupported indexed type: string")
  | None => Err (External "unsupported indexed type: <nil>")
  end.

(** The 32-byte big-endian encoding of a number. *)
Definition byteAt (n : Z) (k : nat) : Byte.byte :=
  default Byte.x00 (Byte.of_N (Z.to_N ((n / 256 ^ Z.of_nat k) mod 256))).

Definition word32 (n : Z) : list Byte.byte :=
  List.map (byteAt n) (List.rev (List.seq 0 32)).

(** Fixed-size values inline in 32-byte slots. *)
Fixpoint packWords (values : list (any value)) : res (list Byte.byte) :=
  match values with
  | [] => Ok []
  | v :: rest =>
      match rule v with
      | Err _ => Err (External "abi: cannot pack value")
      | Ok w =>
          match packWords rest with
          | Err e => Err e
          | Ok bytes => Ok (word32 w ++ bytes)
          end
      end
  end.

Definition pack (args : list (Argument string)) (values : list (any value))
    : slice Byte.byte * option error :=
  if decide (length args = length values) then
    match packWords values with
    | Ok bytes => (Some bytes, None)
    | Err e => (None, Some e)
    end
  else (None, Some (External "abi: argument count mismatch")).

(** Decoders of decimal and of 0x-prefixed hexadecimal strings. *)
Definition digitOf (base : Z) (c : Ascii.ascii) : option Z :=
  let n := Z.of_nat (Ascii.nat_of_ascii c) in
  let d := if decide (48 <= n <= 57) then n - 48
           else if decide (65 <= n <= 70) then n - 55
           else if decide (97 <= n <= 102) then n - 87
           else base in
  if decide (d < base) then Some d else None.

Fixpoint digits (base : Z) (s : string) (acc : Z) : option Z :=
  match s with
  | EmptyString => Some acc
  | String c rest =>
      match digitOf base c with
      | Some d => digits base rest (base * acc + d)
      | None => None
      end
  end.

Definition decodeAmount : decodeFn value := fun s =>
  match s with
  | EmptyString => (None, Some (External "invalid amount"))
  | _ =>
      match digits 10 s 0 with
      | Some n => (Some (VBigInt n), None)
      | None => (None, Some (External "invalid amount"))
      end
  end.

Definition decodeAddress : decodeFn value := fun s =>
  match s with
  | String "0"%char (String "x"%char rest) =>
      match digits 16 rest 0 with
      | Some a => (Some (VAddress a), None)
      | None => (None, Some (External "invalid address"))
      end
  | _ => (None, Some (External "invalid address"))
  end.

(** A decoder that yields a value distinguishable from [decodeAmount]'s. *)
Definition decodeVerbatim : decodeFn value := fun s => (Some (VString s), None).

Definition defaults : ValueDecoders value :=
  Some {[ "from" := Some decodeAddress; "amount" := Some decodeAmount ]}.

#[global] Instance transferImports : Imports Z string value := {|
  hashDyn := VHash;
  defaultCosmosValueDecoders := defaults;
  topicRule := rule;
  PackValues := pack
|}.

Definition H : Z := 16^63 * 13 + 239.

(** The descriptor of the scenario, with a given table of overrides. *)
Definition transferWith (overrides : ValueDecoders value) : @PrecompileEvent Z Z string value :=
  {| moduleAddr := 7;
     id := H;
     indexedInputs := [ {| Name := "from"; ArgType := "address" |} ];
     nonIndexedInputs := [ {| Name := "amount"; ArgType := "uint256" |} ];
     customValueDecoders := overrides |}.

Definition transfer : @PrecompileEvent Z Z string value := transferWith None.

Definition sent : Event :=
  {| Type_ := "transfer";
     Attributes := [ {| Key := "from"; Value := "0xAA" |};
                     {| Key := "amount"; Value := "100" |} ] |}.

(** The same event without its "amount" attribute. *)
Definition sentNoAmount : Event :=
  {| Type_ := "transfer";
     Attributes := [ {| Key := "from"; Value := "0xAA" |} ] |}.

(** A descriptor with two indexed arguments, and an event with two
    attributes for the key "from". *)
Definition exchange : @PrecompileEvent Z Z string value :=
  {| moduleAddr := 7;
     id := H;
     indexedInputs := [ {| Name := "from"; ArgType := "address" |};
                        {| Name := "to"; ArgType := "address" |} ];
     nonIndexedInputs := [ {| Name := "amount"; ArgType := "uint256" |} ];
     customValueDecoders := Some {[ "to" := Some decodeAddress; "memo" := None ]} |}.

Definition exchanged : Event :=
  {| Type_ := "exchange";
     Attributes := [ {| Key := "amount"; Value := "5" |};
                     {| Key := "from"; Value := "0x01" |};
                     {| Key := "to"; Value := "0x02" |};
                     {| Key := "from"; Value := "0x03" |} ] |}.

(** A descriptor with an argument "memo" for whose key no table has a
    decode function, and an event that carries the attribute. *)
Definition noted : @PrecompileEvent Z Z string value :=
  {| moduleAddr := 7;
     id := H;
     indexedInputs := [ {| Name := "from"; ArgType := "address" |};
                        {| Name := "memo"; ArgType := "string" |} ];
     nonIndexedInputs := [ {| Name := "amount"; ArgType := "uint256" |};
                           {| Name := "memo"; ArgType := "string" |} ];
     customValueDecoders := Some {[ "memo" := None ]} |}.

Definition note : Event :=
  {| Type_ := "note";
     Attributes := [ {| Key := "from"; Value := "0xAA" |};
                     {| Key := "amount"; Value := "100" |};
                     {| Key := "memo"; Value := "hi" |} ] |}.

(** The event of the scenario with an amount that is not a number. *)
Definition sentBadAmount : Event :=
  {| Type_ := "transfer";
     Attributes := [ {| Key := "from"; Value := "0xAA" |};
                     {| Key := "amount"; Value := "lots" |} ] |}.

End Scenario.

(** ** Construction of a descriptor *)

Section Construction.

Context {Address : Type} `{imports : Imports Hash abiType dyn}.

(** [abi.Event] and its [Inputs] are opaque here, read through [ID] and
    [Inputs]; [abi.GetIndexed] and [abi.Arguments.NonIndexed] are imported. *)
Context {abiEvent abiArguments : Type}.
Variable ID : abiEvent -> Hash.
Variable Inputs : abiEvent -> abiArguments.
Variable GetIndexed : abiArguments -> list (Argument abiType).
Variable NonIndexed : abiArguments -> list (Argument abiType).

(** The object the pointer returned by [NewPrecompileEvent] points to. *)
Definition NewPrecompileEvent (moduleAddress : Address) (event : abiEvent)
    (decoders : ValueDecoders dyn) : @PrecompileEvent Address Hash abiType dyn :=
  {| moduleAddr := moduleAddress;
     id := ID event;
     indexedInputs := GetIndexed (Inputs event);
     nonIndexedInputs := NonIndexed (Inputs event);
     customValueDecoders := decoders |}.

End Construction.

(** ** Reading the builders' loops *)

Section Reading.

Context {Address : Type} `{imports : Imports Hash abiType dyn}.

(** What one iteration of either loop does when it does not return: the
    first attribute named after the argument is found, [getValueDecoder]
    gives a decode function for its key, and the function turns the
    attribute's value into [value] with a nil error. *)
Definition decodesTo (pe : @PrecompileEvent Address Hash abiType dyn) (event : Event)
    (arg : Argument abiType) (value : any dyn) : Prop :=
  exists (attr : Attribute) (decode : decodeFn dyn),
    firstAttribute (Attributes event) (Name arg) = Some attr /\
    getValueDecoder (Key attr) (pe, event) = Done ((Some decode, None), (pe, event)) /\
    decode (Value attr) = (value, None).

(** The event with further attributes after its own. *)
Definition withMore (extra : list Attribute) (event : Event) : Event :=
  {| Type_ := Type_ event; Attributes := Attributes event ++ extra |}.

(** The descriptor with another table of overrides. *)
Definition withDecoders (decoders : ValueDecoders dyn)
    (pe : @PrecompileEvent Address Hash abiType dyn) : @PrecompileEvent Address Hash abiType dyn :=
  {| moduleAddr := moduleAddr pe;
     id := id pe;
     indexedInputs := indexedInputs pe;
     nonIndexedInputs := nonIndexedInputs pe;
     customValueDecoders := decoders |}.

(** Two tables of overrides between which no call can tell: with either
    one in the descriptor, [getValueDecoder] gives the same answer for every
    key and the builders return the same topics, data and errors. *)
Definition sameAnswers (decoders decoders' : ValueDecoders dyn)
    (pe : @PrecompileEvent Address Hash abiType dyn) (event : Event) : Prop :=
  (forall key, exists r,
     getValueDecoder key (withDecoders decoders pe, event) =
       Done (r, (withDecoders decoders pe, event)) /\
     getValueDecoder key (withDecoders decoders' pe, event) =
       Done (r, (withDecoders decoders' pe, event))) /\
  (exists r,
     MakeTopics (withDecoders decoders pe, event) =
       Done (r, (withDecoders decoders pe, event)) /\
     MakeTopics (withDecoders decoders' pe, event) =
       Done (r, (withDecoders decoders' pe, event))) /\
  (exists r,
     MakeData (withDecoders decoders pe, event) =
       Done (r, (withDecoders decoders pe, event)) /\
     MakeData (withDecoders decoders' pe, event) =
       Done (r, (withDecoders decoders' pe, event))).

(** Two func values answer alike on [value]: both are nil, or neither is
    and both return the same value and the same error for it. *)
Definition alike (decode decode' : valueDecoder dyn) (value : string) : Prop :=
  match decode, decode' with
  | Some f, Some f' => f value = f' value
  | None, None => True
  | _, _ => False
  end.

End Reading.

(** ** Further cases of the transfer setting *)

Module Cases.

(** The event of the scenario with its attributes in the other order. *)
Definition sentReversed : Event :=
  {| Type_ := "transfer";
     Attributes := [ {| Key := "amount"; Value := "100" |};
                     {| Key := "from"; Value := "0xAA" |} ] |}.

(** A descriptor of an event without arguments. *)
Definition bare : @PrecompileEvent Z Z string Scenario.value :=
  {| moduleAddr := 7;
     id := Scenario.H;
     indexedInputs := [];
     nonIndexedInputs := [];
     customValueDecoders := None |}.

(** An ABI event as a pair of its identifier and its inputs, each input
    flagged indexed or not. *)
Definition transferEvent : Z * list (Argument string * bool) :=
  (Scenario.H, [ ({| Name := "from"; ArgType := "address" |}, true);
                 ({| Name := "amount"; ArgType := "uint256" |}, false) ]).

Definition flagged (indexed : bool) (inputs : list (Argument string * bool))
    : list (Argument string) :=
  List.map fst (List.filter (fun input => Bool.eqb (snd input) indexed) inputs).

(** The descriptor of the scenario with other declared types. *)
Definition retyped : @PrecompileEvent Z Z string Scenario.value :=
  {| moduleAddr := 7;
     id := Scenario.H;
     indexedInputs := [ {| Name := "from"; ArgType := "bytes32" |} ];
     nonIndexedInputs := [ {| Name := "amount"; ArgType := "uint8" |} ];
     customValueDecoders := None |}.

(** What the imported functions answer during another call: the decoder of
    "amount" is another function, which answers as [Scenario.decodeAmount]
    on "100" only. *)
Definition decodeAmountOnce : decodeFn Scenario.value := fun s =>
  if decide (s = "100") then (Some (Scenario.VBigInt 100), None)
  else (Some (Scenario.VString s), None).

Definition secondCall : Imports Z string Scenario.value :=
  {| hashDyn := Scenario.VHash;
     defaultCosmosValueDecoders :=
       Some {[ "from" := Some Scenario.decodeAddress; "amount" := Some decodeAmountOnce ]};
     topicRule := Scenario.rule;
     PackValues := Scenario.pack |}.

End Cases.

(** ** The attribute locator *)

Lemma searchFrom_found (i : Z) (attributes : list Attribute) (argName : string) (a : Attribute) :
  firstAttribute attributes argName = Some a ->
  exists k : nat,
    searchFrom i attributes argName = i + Z.of_nat k /\
    attributes !! k = Some a /\ Key a = argName /\
    (forall (j : nat) (b : Attribute), (j < k)%nat -> attributes !! j = Some b -> Key b <> argName).
Proof.
  unfold firstAttribute. revert i.
  induction attributes as [|b rest IH]; intros i Hfind; simpl in *; [discriminate|].
  destruct (decide (Key b = argName)) as [Hb|Hb].
  - rewrite bool_decide_eq_true_2 in Hfind by assumption.
    injection Hfind as ->. exists 0%nat. repeat split; [lia|done|].
    intros j c Hj. lia.
  - rewrite bool_decide_eq_false_2 in Hfind by assumption.
    destruct (IH (i + 1) Hfind) as (k & Hk & Hlook & Hkey & Hfirst).
    exists (S k). repeat split; [lia|done|done|].
    intros [|j] c Hj Hc; simpl in Hc.
    + injection Hc as <-. exact Hb.
    + apply (Hfirst j c); [lia|done].
Qed.

Lemma searchFrom_none (i : Z) (attributes : list Attribute) (argName : string) :
  firstAttribute attributes argName = None ->
  searchFrom i attributes argName = notFound /\
  (forall (j : nat) (b : Attribute), attributes !! j = Some b -> Key b <> argName).
Proof.
  unfold firstAttribute. revert i.
  induction attributes as [|b rest IH]; intros i Hfind; simpl in *.
  - split; [done|]. intros j c Hc. destruct j; discriminate.
  - destruct (decide (Key b = argName)) as [Hb|Hb].
    + rewrite bool_decide_eq_true_2 in Hfind by assumption. discriminate.
    + rewrite bool_decide_eq_false_2 in Hfind by assumption.
      destruct (IH (i + 1) Hfind) as [Hs Hall]. split; [done|].
      intros [|j] c Hc; simpl in Hc.
      * injection Hc as <-. exact Hb.
      * by apply (Hall j c).
Qed.

(** The locator answers [notFound] exactly when no attribute has the key. *)
Lemma search_notFound (attributes : list Attribute) (argName : string) :
  searchAttributesForArg attributes argName = notFound <->
  firstAttribute attributes argName = None.
Proof.
  unfold searchAttributesForArg. split.
  - intros Hs. destruct (firstAttribute attributes argName) as [a|] eqn:Hf; [|done].
    destruct (searchFrom_found 0 _ _ _ Hf) as (k & Hk & _).
    rewrite Hk in Hs. unfold notFound in Hs. lia.
  - intros Hf. by destruct (searchFrom_none 0 _ _ Hf).
Qed.

Lemma firstAttribute_None (attributes : list Attribute) (argName : string) :
  firstAttribute attributes argName = None <->
  (forall (j : nat) (b : Attribute), attributes !! j = Some b -> Key b <> argName).
Proof.
  split.
  - intros Hf. by destruct (searchFrom_none 0 _ _ Hf).
  - intros Hall. destruct (firstAttribute attributes argName) as [a|] eqn:Hf; [|done].
    destruct (searchFrom_found 0 _ _ _ Hf) as (k & _ & Hlook & Hkey & _).
    by destruct (Hall k a Hlook).
Qed.

(** Dropping the attributes of another key does not change which
    attribute is first for [argName]. *)
Lemma firstAttribute_withoutKey_ne (key argName : string) (event : Event) :
  key <> argName ->
  firstAttribute (Attributes (withoutKey key event)) argName =
  firstAttribute (Attributes event) argName.
Proof.
  intros Hne. unfold firstAttribute, withoutKey; simpl.
  induction (Attributes event) as [|b rest IH]; simpl; [done|].
  destruct (decide (Key b = key)) as [Hb|Hb].
  - rewrite (bool_decide_eq_true_2 _ Hb); simpl.
    rewrite bool_decide_eq_false_2 by congruence. exact IH.
  - rewrite (bool_decide_eq_false_2 _ Hb); simpl.
    by destruct (bool_decide (Key b = argName)).
Qed.

Lemma firstAttribute_withoutKey_eq (key : string) (event : Event) :
  firstAttribute (Attributes (withoutKey key event)) key = None.
Proof.
  unfold firstAttribute, withoutKey; simpl.
  induction (Attributes event) as [|b rest IH]; simpl; [done|].
  destruct (decide (Key b = key)) as [Hb|Hb].
  - by rewrite (bool_decide_eq_true_2 _ Hb).
  - rewrite (bool_decide_eq_false_2 _ Hb); simpl.
    by rewrite (bool_decide_eq_false_2 _ Hb).
Qed.

(** ** Running the methods *)

Section Properties.

Context {Address : Type} `{imports : Imports Hash abiType dyn}.

Abbreviation descriptor := (@PrecompileEvent Address Hash abiType dyn).

Lemma index_run {A} (s : list A) (k : nat) (a : A) (m : @Memory Address Hash abiType dyn) :
  s !! k = Some a -> index s (Z.of_nat k) m = Done (a, m).
Proof.
  intros Hk. unfold index. rewrite decide_True by lia.
  by rewrite Nat2Z.id, Hk.
Qed.

(** [getValueDecoder] computes [resolve] and leaves the memory as it is. *)
Lemma getValueDecoder_run (pe : descriptor) (event : Event) (attrKey : string) :
  getValueDecoder attrKey (pe, event) =
  Done (match resolve (customValueDecoders pe) attrKey with
        | Ok decode => (Some decode, None)
        | Err e => (None, Some e)
        end, (pe, event)).
Proof.
  unfold getValueDecoder, resolve, bind, load_pe; simpl.
  destruct (customValueDecoders pe) as [entries|] eqn:Hcustom; simpl.
  - rewrite Hcustom; simpl.
    destruct (default None (entries !! attrKey)); simpl; [done|].
    unfold ret. by destruct (mapIndex defaultCosmosValueDecoders attrKey).
  - unfold ret. by destruct (mapIndex defaultCosmosValueDecoders attrKey).
Qed.

(** The steps both loop bodies share: locate, resolve, decode. *)
Ltac run_body pe event arg :=
  unfold bind, load_event; simpl;
  unfold argValue;
  destruct (firstAttribute (Attributes event) (Name arg)) as [attr|] eqn:Hfirst;
  [ destruct (searchFrom_found 0 _ _ _ Hfirst) as (k & Hk & Hlook & Hkey & _);
    unfold searchAttributesForArg; rewrite Hk;
    rewrite decide_False by (unfold notFound; lia);
    rewrite Z.add_0_l, (index_run _ _ _ _ Hlook), getValueDecoder_run;
    destruct (resolve (customValueDecoders pe) (Key attr)) as [decode|e]; simpl; [|done];
    destruct (decode (Value attr)) as [value [e|]]; simpl; [done|]
  | apply search_notFound in Hfirst; rewrite Hfirst;
    rewrite decide_True by done; done ].

(** One iteration: an argument that cannot be processed makes the builder
    return nil and the error; otherwise the decoded value is stored. *)
Lemma topicsBody_step (pe : descriptor) (event : Event) (i : nat) (arg : Argument abiType)
    (filterQuery : list (any dyn)) :
  topicsBody i arg filterQuery (pe, event) =
  match argValue pe event arg with
  | Ok value =>
      (let* filterQuery := store filterQuery (i + 1) value in ret (Next filterQuery)) (pe, event)
  | Err e => Done (Return (None, Some e), (pe, event))
  end.
Proof. unfold topicsBody. run_body pe event arg. done. Qed.

Lemma dataBody_step (pe : descriptor) (event : Event) (i : nat) (arg : Argument abiType)
    (attrVals : list (any dyn)) :
  dataBody i arg attrVals (pe, event) =
  match argValue pe event arg with
  | Ok value =>
      (let* attrVals := store attrVals i value in ret (Next attrVals)) (pe, event)
  | Err e => Done (Return (None, Some e), (pe, event))
  end.
Proof. unfold dataBody. run_body pe event arg. done. Qed.

Lemma topicsBody_run (pe : descriptor) (event : Event) (i : nat) (arg : Argument abiType)
    (filterQuery : list (any dyn)) :
  (i + 1 < length filterQuery)%nat ->
  topicsBody i arg filterQuery (pe, event) =
  Done (match argValue pe event arg with
        | Ok value => Next (<[(i + 1)%nat := value]> filterQuery)
        | Err e => Return (None, Some e)
        end, (pe, event)).
Proof.
  intros Hi. rewrite topicsBody_step.
  destruct (argValue pe event arg); [|done].
  unfold bind, store. by rewrite decide_True by done.
Qed.

Lemma dataBody_run (pe : descriptor) (event : Event) (i : nat) (arg : Argument abiType)
    (attrVals : list (any dyn)) :
  (i < length attrVals)%nat ->
  dataBody i arg attrVals (pe, event) =
  Done (match argValue pe event arg with
        | Ok value => Next (<[i := value]> attrVals)
        | Err e => Return (None, Some e)
        end, (pe, event)).
Proof.
  intros Hi. rewrite dataBody_step.
  destruct (argValue pe event arg); [|done].
  unfold bind, store. by rewrite decide_True by done.
Qed.

Lemma topicsLoop_run (pe : descriptor) (event : Event) (args : list (Argument abiType)) :
  forall (i : nat) (filterQuery : list (any dyn)),
  (i + length args < length filterQuery)%nat ->
  rangeLoop topicsBody i args filterQuery (pe, event) =
  Done (match argValues pe event args with
        | Ok values => Next (fill (i + 1) values filterQuery)
        | Err e => Return (None, Some e)
        end, (pe, event)).
Proof.
  induction args as [|arg rest IH]; intros i filterQuery Hlen; simpl in *; [done|].
  unfold bind. rewrite topicsBody_run by lia.
  destruct (argValue pe event arg) as [value|e]; [|done].
  rewrite IH by (rewrite length_insert; lia).
  destruct (argValues pe event rest); [|done].
  by replace (S i + 1)%nat with (S (i + 1)) by lia.
Qed.

Lemma dataLoop_run (pe : descriptor) (event : Event) (args : list (Argument abiType)) :
  forall (i : nat) (attrVals : list (any dyn)),
  (i + length args <= length attrVals)%nat ->
  rangeLoop dataBody i args attrVals (pe, event) =
  Done (match argValues pe event args with
        | Ok values => Next (fill i values attrVals)
        | Err e => Return (None, Some e)
        end, (pe, event)).
Proof.
  induction args as [|arg rest IH]; intros i attrVals Hlen; simpl in *; [done|].
  unfold bind. rewrite dataBody_run by lia.
  destruct (argValue pe event arg) as [value|e]; [|done].
  rewrite IH by (rewrite length_insert; lia).
  by destruct (argValues pe event rest).
Qed.

Lemma argValues_length (pe : descriptor) (event : Event) (args : list (Argument abiType))
    (values : list (any dyn)) :
  argValues pe event args = Ok values -> length values = length args.
Proof.
  revert values. induction args as [|arg rest IH]; intros values Hv; simpl in *.
  - by injection Hv as <-.
  - destruct (argValue pe event arg); [|discriminate].
    destruct (argValues pe event rest) as [vs|]; [|discriminate].
    injection Hv as <-. simpl. by rewrite (IH vs).
Qed.

(** Assigning as many values as there are fresh slots overwrites them all. *)
Lemma fill_replicate {A} (values : list A) :
  forall (before : list A) (zero : A),
  fill (length before) values (before ++ replicate (length values) zero) = before ++ values.
Proof.
  induction values as [|v rest IH]; intros before zero; simpl.
  - done.
  - rewrite insert_app_r_alt by lia. rewrite Nat.sub_diag. simpl.
    specialize (IH (before ++ [v]) zero).
    rewrite length_app in IH. simpl in IH.
    replace (length before + 1)%nat with (S (length before)) in IH by lia.
    by rewrite <- !app_assoc in IH.
Qed.

(** [MakeTopics] computes [topicsOf] and leaves the memory as it is. *)
Lemma MakeTopics_run (pe : descriptor) (event : Event) :
  MakeTopics (pe, event) = Done (topicsOf pe event, (pe, event)).
Proof.
  unfold MakeTopics, topicsOf, bind, load_pe; simpl.
  rewrite Nat.add_1_r. simpl.
  rewrite topicsLoop_run by (simpl; rewrite length_replicate; lia).
  destruct (argValues pe event (indexedInputs pe)) as [values|e] eqn:Hvalues; [|done].
  rewrite <- (argValues_length _ _ _ _ Hvalues).
  change (fill (0 + 1) values (Some (hashDyn (id pe)) :: replicate (length values) None))
    with (fill (length [Some (hashDyn (id pe))]) values
            ([Some (hashDyn (id pe))] ++ replicate (length values) None)).
  rewrite fill_replicate. simpl.
  unfold abi_MakeTopics. simpl.
  destruct (topicRule (Some (hashDyn (id pe)))) as [topic|e]; [|done].
  destruct (abi_topics values) as [topics|e]; [|done].
  done.
Qed.

(** [MakeData] computes [dataOf] and leaves the memory as it is. *)
Lemma MakeData_run (pe : descriptor) (event : Event) :
  MakeData (pe, event) = Done (dataOf pe event, (pe, event)).
Proof.
  unfold MakeData, dataOf, bind, load_pe; simpl.
  rewrite dataLoop_run by (rewrite length_replicate; simpl; lia).
  destruct (argValues pe event (nonIndexedInputs pe)) as [values|e] eqn:Hvalues; [|done].
  rewrite <- (argValues_length _ _ _ _ Hvalues).
  change (fill 0 values (replicate (length values) None))
    with (fill (length (@nil (any dyn))) values ([] ++ replicate (length values) None)).
  rewrite fill_replicate. simpl.
  by destruct (PackValues (nonIndexedInputs pe) values) as [data [e|]].
Qed.

Lemma ValidateAttributes_run (pe : descriptor) (event : Event) :
  ValidateAttributes (pe, event) =
  Done (if decide (length (Attributes event) <
                   length (indexedInputs pe) + length (nonIndexedInputs pe))%nat
        then Some (NotEnoughAttributes (Type_ event)) else None, (pe, event)).
Proof.
  unfold ValidateAttributes, bind, load_pe, load_event; simpl.
  by destruct (decide _).
Qed.

(** ** The arguments in order *)

Lemma argValues_app (pe : descriptor) (event : Event) (before after : list (Argument abiType)) :
  argValues pe event (before ++ after) =
  match argValues pe event before with
  | Err e => Err e
  | Ok values =>
      match argValues pe event after with
      | Err e => Err e
      | Ok more => Ok (values ++ more)
      end
  end.
Proof.
  induction before as [|arg rest IH]; simpl.
  - by destruct (argValues pe event after).
  - destruct (argValue pe event arg); [|done]. rewrite IH.
    destruct (argValues pe event rest); [|done].
    by destruct (argValues pe event after).
Qed.

Lemma argValues_all (pe : descriptor) (event : Event) (args : list (Argument abiType)) :
  Forall (fun arg => exists value, argValue pe event arg = Ok value) args <->
  exists values, argValues pe event args = Ok values.
Proof.
  induction args as [|arg rest IH]; simpl.
  - split; [by exists []|by constructor].
  - rewrite Forall_cons, IH. split.
    + intros [[value ->] [values ->]]. by eexists.
    + intros [values Hv]. destruct (argValue pe event arg); [|discriminate].
      destruct (argValues pe event rest); [|discriminate]. split; by eexists.
Qed.

(** The error of a translation is the error of the first argument that
    cannot be processed. *)
Lemma argValues_first_failure (pe : descriptor) (event : Event)
    (before after : list (Argument abiType)) (arg : Argument abiType) (e : error) :
  Forall (fun arg => exists value, argValue pe event arg = Ok value) before ->
  argValue pe event arg = Err e ->
  argValues pe event (before ++ arg :: after) = Err e.
Proof.
  intros Hbefore Harg. apply argValues_all in Hbefore as [values Hvalues].
  rewrite argValues_app, Hvalues. simpl. by rewrite Harg.
Qed.

Lemma argValues_some_failure (pe : descriptor) (event : Event)
    (args : list (Argument abiType)) (arg : Argument abiType) (e : error) :
  arg ∈ args -> argValue pe event arg = Err e ->
  exists e', argValues pe event args = Err e'.
Proof.
  intros Hin Harg.
  destruct (argValues pe event args) as [values|e'] eqn:Hv; [|by eexists].
  assert (Hall : exists values, argValues pe event args = Ok values) by by eexists.
  apply argValues_all in Hall. rewrite Forall_forall in Hall.
  destruct (Hall arg Hin) as [value Hvalue]. congruence.
Qed.

Lemma argValues_ext (pe pe' : descriptor) (event event' : Event) (args : list (Argument abiType)) :
  (forall arg, arg ∈ args -> argValue pe event arg = argValue pe' event' arg) ->
  argValues pe event args = argValues pe' event' args.
Proof.
  induction args as [|arg rest IH]; intros Hext; simpl; [done|].
  rewrite (Hext arg) by apply list_elem_of_here.
  rewrite IH; [done|]. intros a Ha. apply Hext. by apply list_elem_of_further.
Qed.

Lemma abi_topics_length (filter : list (any dyn)) (topics : list Hash) :
  abi_topics filter = Ok topics -> length topics = length filter.
Proof.
  revert topics. induction filter as [|rule rest IH]; intros topics Ht; simpl in *.
  - by injection Ht as <-.
  - destruct (topicRule rule); [|discriminate].
    destruct (abi_topics rest) as [ts|]; [|discriminate].
    injection Ht as <-. simpl. by rewrite (IH ts).
Qed.

(** ** The topic builder *)

(** C1.  When the event carries at least as many attributes as the
    descriptor has arguments and [MakeTopics] succeeds, it returns exactly
    [1 + len(indexedInputs)] hashes and the hash in slot 0 is the identifier
    of the descriptor.  The ABI's rule uses a hash directly as its topic. *)
Theorem MakeTopics_length_and_identifier (pe : descriptor) (event : Event)
    (topics : slice Hash) (m : Memory) :
  (forall h : Hash, topicRule (Some (hashDyn h)) = Ok h) ->
  (length (indexedInputs pe) + length (nonIndexedInputs pe) <= length (Attributes event))%nat ->
  MakeTopics (pe, event) = Done ((topics, None), m) ->
  exists hashes : list Hash,
    topics = Some hashes /\
    length hashes = (1 + length (indexedInputs pe))%nat /\
    hashes !! 0%nat = Some (id pe).
Proof.
  intros Hrule _ Hrun. rewrite MakeTopics_run in Hrun.
  injection Hrun as Hrun _. unfold topicsOf in Hrun.
  destruct (argValues pe event (indexedInputs pe)) as [values|e] eqn:Hvalues; [|discriminate].
  destruct (abi_topics (Some (hashDyn (id pe)) :: values)) as [hashes|e] eqn:Htopics;
    [|discriminate].
  injection Hrun as <-. exists hashes. split; [done|].
  split.
  - rewrite (abi_topics_length _ _ Htopics). simpl.
    by rewrite (argValues_length _ _ _ _ Hvalues).
  - simpl in Htopics. rewrite Hrule in Htopics.
    destruct (abi_topics values); [|discriminate]. by injection Htopics as <-.
Qed.

(** ** The validator *)

(** C2.  [ValidateAttributes] returns the not-enough-attributes error exactly
    when the event has fewer attributes than the descriptor has indexed and
    non-indexed arguments together, returns nil otherwise, and leaves the
    descriptor and the event as they were. *)
Theorem ValidateAttributes_iff (pe : descriptor) (event : Event) :
  exists r : option error,
    ValidateAttributes (pe, event) = Done (r, (pe, event)) /\
    (r = Some (NotEnoughAttributes (Type_ event)) <->
       (length (Attributes event) <
        length (indexedInputs pe) + length (nonIndexedInputs pe))%nat) /\
    (r = None <->
       (length (indexedInputs pe) + length (nonIndexedInputs pe) <=
        length (Attributes event))%nat).
Proof.
  rewrite ValidateAttributes_run. eexists. split; [done|].
  destruct (decide _) as [Hlt|Hge].
  - split; split; try done; intros; lia.
  - split; split; try done; intros; lia.
Qed.

(** ** Calls do not write *)

(** C8.  [MakeTopics], [MakeData] and [ValidateAttributes] each return
    without a panic and leave the descriptor and the event in memory exactly
    as they found them, whether they return an error or not. *)
Theorem calls_leave_memory_unchanged (pe : descriptor) (event : Event) :
  (exists r, MakeTopics (pe, event) = Done (r, (pe, event))) /\
  (exists r, MakeData (pe, event) = Done (r, (pe, event))) /\
  (exists r, ValidateAttributes (pe, event) = Done (r, (pe, event))).
Proof.
  rewrite MakeTopics_run, MakeData_run, ValidateAttributes_run.
  repeat split; by eexists.
Qed.

(** ** Failures of one argument *)

Lemma argValue_missing (pe : descriptor) (event : Event) (arg : Argument abiType) :
  (forall (j : nat) (b : Attribute), Attributes event !! j = Some b -> Key b <> Name arg) ->
  argValue pe event arg = Err (NoAttributeKey (Type_ event) (Name arg)).
Proof.
  intros Hmissing. apply firstAttribute_None in Hmissing.
  unfold argValue. by rewrite Hmissing.
Qed.

Lemma argValue_no_decoder (pe : descriptor) (event : Event) (arg : Argument abiType)
    (attr : Attribute) :
  firstAttribute (Attributes event) (Name arg) = Some attr ->
  mapIndex (customValueDecoders pe) (Key attr) = None ->
  mapIndex defaultCosmosValueDecoders (Key attr) = None ->
  argValue pe event arg = Err (NoValueDecoder (Key attr)).
Proof.
  intros Hattr Hcustom Hdefault. unfold argValue, resolve.
  by rewrite Hattr, Hcustom, Hdefault.
Qed.

Lemma argValue_decode_error (pe : descriptor) (event : Event) (arg : Argument abiType)
    (attr : Attribute) (decode : decodeFn dyn) (value : any dyn) (e : error) :
  firstAttribute (Attributes event) (Name arg) = Some attr ->
  getValueDecoder (Key attr) (pe, event) = Done ((Some decode, None), (pe, event)) ->
  decode (Value attr) = (value, Some e) ->
  argValue pe event arg = Err e.
Proof.
  intros Hattr Hget Hdecode. rewrite getValueDecoder_run in Hget.
  unfold argValue. rewrite Hattr.
  destruct (resolve (customValueDecoders pe) (Key attr)) as [d|]; [|discriminate].
  injection Hget as ->. by rewrite Hdecode.
Qed.

Lemma topicsOf_failure (pe : descriptor) (event : Event) (e : error) :
  argValues pe event (indexedInputs pe) = Err e -> topicsOf pe event = (None, Some e).
Proof. intros He. unfold topicsOf. by rewrite He. Qed.

Lemma dataOf_failure (pe : descriptor) (event : Event) (e : error) :
  argValues pe event (nonIndexedInputs pe) = Err e -> dataOf pe event = (None, Some e).
Proof. intros He. unfold dataOf. by rewrite He. Qed.

Lemma topicsOf_all_or_nothing (pe : descriptor) (event : Event) :
  (exists hashes, topicsOf pe event = (Some hashes, None)) \/
  (exists e, topicsOf pe event = (None, Some e)).
Proof.
  unfold topicsOf. destruct (argValues pe event (indexedInputs pe)); [|right; by eexists].
  destruct (abi_topics _); [left|right]; by eexists.
Qed.

Lemma dataOf_all_or_nothing (pe : descriptor) (event : Event) :
  (exists data, dataOf pe event = (data, None)) \/
  (exists e, dataOf pe event = (None, Some e)).
Proof.
  unfold dataOf. destruct (argValues pe event (nonIndexedInputs pe)); [|right; by eexists].
  destruct (PackValues _ _) as [data [e|]]; [right|left]; by eexists.
Qed.

(** ** Decoder resolution *)

(** C10.  [getValueDecoder] returns without a panic, and what it returns is
    either a decode function that is not nil together with a nil error, or
    nil together with the no-decoder error.  A nil map of overrides and an
    override entry holding a nil func are both passed over: the answer is
    then the one of the default table. *)
Theorem getValueDecoder_total (pe : descriptor) (event : Event) (attrKey : string) :
  ((exists decode : decodeFn dyn,
      getValueDecoder attrKey (pe, event) = Done ((Some decode, None), (pe, event))) \/
   getValueDecoder attrKey (pe, event) =
     Done ((None, Some (NoValueDecoder attrKey)), (pe, event))) /\
  (customValueDecoders pe = None \/
   (exists entries, customValueDecoders pe = Some entries /\ entries !! attrKey = Some None) ->
   getValueDecoder attrKey (pe, event) =
     Done (match mapIndex defaultCosmosValueDecoders attrKey with
           | Some decode => (Some decode, None)
           | None => (None, Some (NoValueDecoder attrKey))
           end, (pe, event))).
Proof.
  rewrite getValueDecoder_run. unfold resolve. split.
  - destruct (mapIndex (customValueDecoders pe) attrKey); [left; by eexists|].
    destruct (mapIndex defaultCosmosValueDecoders attrKey); [left; by eexists|by right].
  - intros [Hnil|(entries & Hentries & Hentry)].
    + rewrite Hnil. simpl. by destruct (mapIndex defaultCosmosValueDecoders attrKey).
    + rewrite Hentries. simpl. rewrite Hentry. simpl.
      by destruct (mapIndex defaultCosmosValueDecoders attrKey).
Qed.

(** C3.  [getValueDecoder] answers with the decode function the overrides
    of the descriptor hold for the key when they hold one; otherwise with
    the one of the default table when it holds one; and with the no-decoder
    error when neither does.  In the last case, for an argument whose
    attribute has that key: the iteration of either builder for it returns
    nil and that error; a builder with the argument returns nil and an
    error; and the error is that one when every argument before it is
    located and decoded. *)
Theorem getValueDecoder_resolution (pe : descriptor) (event : Event) (attrKey : string) :
  (forall decode : decodeFn dyn,
     mapIndex (customValueDecoders pe) attrKey = Some decode ->
     getValueDecoder attrKey (pe, event) = Done ((Some decode, None), (pe, event))) /\
  (forall decode : decodeFn dyn,
     mapIndex (customValueDecoders pe) attrKey = None ->
     mapIndex defaultCosmosValueDecoders attrKey = Some decode ->
     getValueDecoder attrKey (pe, event) = Done ((Some decode, None), (pe, event))) /\
  (mapIndex (customValueDecoders pe) attrKey = None ->
   mapIndex defaultCosmosValueDecoders attrKey = None ->
   getValueDecoder attrKey (pe, event) =
     Done ((None, Some (NoValueDecoder attrKey)), (pe, event)) /\
   forall (arg : Argument abiType) (attr : Attribute),
     firstAttribute (Attributes event) (Name arg) = Some attr -> Key attr = attrKey ->
     (forall i filterQuery,
        topicsBody i arg filterQuery (pe, event) =
          Done (Return (None, Some (NoValueDecoder attrKey)), (pe, event))) /\
     (forall i attrVals,
        dataBody i arg attrVals (pe, event) =
          Done (Return (None, Some (NoValueDecoder attrKey)), (pe, event))) /\
     (arg ∈ indexedInputs pe ->
        exists e, MakeTopics (pe, event) = Done ((None, Some e), (pe, event))) /\
     (arg ∈ nonIndexedInputs pe ->
        exists e, MakeData (pe, event) = Done ((None, Some e), (pe, event))) /\
     (forall before after,
        Forall (fun a => exists value, argValue pe event a = Ok value) before ->
        (indexedInputs pe = before ++ arg :: after ->
           MakeTopics (pe, event) =
             Done ((None, Some (NoValueDecoder attrKey)), (pe, event))) /\
        (nonIndexedInputs pe = before ++ arg :: after ->
           MakeData (pe, event) =
             Done ((None, Some (NoValueDecoder attrKey)), (pe, event))))).
Proof.
  rewrite getValueDecoder_run. unfold resolve. split; [|split].
  - by intros decode ->.
  - by intros decode -> ->.
  - intros Hcustom Hdefault. rewrite Hcustom, Hdefault. split; [done|].
    intros arg attr Hattr <-.
    pose proof (argValue_no_decoder pe event arg attr Hattr Hcustom Hdefault) as Harg.
    split; [|split; [|split; [|split]]].
    + intros i filterQuery. by rewrite topicsBody_step, Harg.
    + intros i attrVals. by rewrite dataBody_step, Harg.
    + intros Hin. destruct (argValues_some_failure pe event _ arg _ Hin Harg) as [e He].
      exists e. by rewrite MakeTopics_run, (topicsOf_failure _ _ _ He).
    + intros Hin. destruct (argValues_some_failure pe event _ arg _ Hin Harg) as [e He].
      exists e. by rewrite MakeData_run, (dataOf_failure _ _ _ He).
    + intros before after Hbefore.
      pose proof (argValues_first_failure pe event before after arg _ Hbefore Harg) as Hfail.
      split; intros Hargs.
      * rewrite <- Hargs in Hfail.
        by rewrite MakeTopics_run, (topicsOf_failure _ _ _ Hfail).
      * rewrite <- Hargs in Hfail.
        by rewrite MakeData_run, (dataOf_failure _ _ _ Hfail).
Qed.

(** ** All or nothing *)

(** C4.  Either builder returns its output with a nil error, or nil with an
    error, and never panics.  When an argument of a builder has no
    attribute with its name in the event, or the decoder resolved for its
    attribute returns an error, that builder returns nil and an error; and
    when the argument is the first one that cannot be processed and it is a
    missing one, the error is the no-attribute-key error carrying the type
    of the event and the name of the argument. *)
Theorem builders_all_or_nothing (pe : descriptor) (event : Event) :
  ((exists hashes, MakeTopics (pe, event) = Done ((Some hashes, None), (pe, event))) \/
   (exists e, MakeTopics (pe, event) = Done ((None, Some e), (pe, event)))) /\
  ((exists data, MakeData (pe, event) = Done ((data, None), (pe, event))) \/
   (exists e, MakeData (pe, event) = Done ((None, Some e), (pe, event)))) /\
  (forall arg : Argument abiType,
     (forall (j : nat) (b : Attribute), Attributes event !! j = Some b -> Key b <> Name arg) \/
     (exists attr decode value e,
        firstAttribute (Attributes event) (Name arg) = Some attr /\
        getValueDecoder (Key attr) (pe, event) = Done ((Some decode, None), (pe, event)) /\
        decode (Value attr) = (value, Some e)) ->
     (arg ∈ indexedInputs pe ->
        exists e, MakeTopics (pe, event) = Done ((None, Some e), (pe, event))) /\
     (arg ∈ nonIndexedInputs pe ->
        exists e, MakeData (pe, event) = Done ((None, Some e), (pe, event)))) /\
  (forall (arg : Argument abiType) before after,
     (forall (j : nat) (b : Attribute), Attributes event !! j = Some b -> Key b <> Name arg) ->
     Forall (fun a => exists value, argValue pe event a = Ok value) before ->
     (indexedInputs pe = before ++ arg :: after ->
        MakeTopics (pe, event) =
          Done ((None, Some (NoAttributeKey (Type_ event) (Name arg))), (pe, event))) /\
     (nonIndexedInputs pe = before ++ arg :: after ->
        MakeData (pe, event) =
          Done ((None, Some (NoAttributeKey (Type_ event) (Name arg))), (pe, event)))).
Proof.
  rewrite MakeTopics_run, MakeData_run. split; [|split; [|split]].
  - destruct (topicsOf_all_or_nothing pe event) as [[hashes ->]|[e ->]];
      [left|right]; by eexists.
  - destruct (dataOf_all_or_nothing pe event) as [[data ->]|[e ->]];
      [left|right]; by eexists.
  - intros arg Hfails.
    assert (Harg : exists e, argValue pe event arg = Err e).
    { destruct Hfails as [Hmissing|(attr & decode & value & e & Hattr & Hget & Hdecode)].
      - eexists. by apply argValue_missing.
      - exists e. by apply (argValue_decode_error pe event arg attr decode value). }
    destruct Harg as [e Harg]. split; intros Hin.
    + destruct (argValues_some_failure pe event _ arg _ Hin Harg) as [e' He].
      exists e'. by rewrite (topicsOf_failure _ _ _ He).
    + destruct (argValues_some_failure pe event _ arg _ Hin Harg) as [e' He].
      exists e'. by rewrite (dataOf_failure _ _ _ He).
  - intros arg before after Hmissing Hbefore.
    pose proof (argValue_missing pe event arg Hmissing) as Harg.
    pose proof (argValues_first_failure pe event before after arg _ Hbefore Harg) as Hfail.
    split; intros Hargs.
    + rewrite <- Hargs in Hfail. by rewrite (topicsOf_failure _ _ _ Hfail).
    + rewrite <- Hargs in Hfail. by rewrite (dataOf_failure _ _ _ Hfail).
Qed.

(** ** The locator *)

(** C5.  The locator returns the index of the first attribute, in the order
    of the sequence, whose key is the argument name: an occurrence with none
    before it is the one selected, and a later duplicate never is.  When no
    attribute has the key it returns [notFound], which is not 0 and not any
    index. *)
Theorem searchAttributesForArg_first (attributes : list Attribute) (argName : string) :
  (forall (i : nat) (a : Attribute),
     attributes !! i = Some a -> Key a = argName ->
     (forall (j : nat) (b : Attribute),
        (j < i)%nat -> attributes !! j = Some b -> Key b <> argName) ->
     searchAttributesForArg attributes argName = Z.of_nat i) /\
  (forall (i j : nat) (a b : Attribute),
     (i < j)%nat -> attributes !! i = Some a -> attributes !! j = Some b ->
     Key a = argName -> Key b = argName ->
     searchAttributesForArg attributes argName <> Z.of_nat j) /\
  ((forall (j : nat) (b : Attribute), attributes !! j = Some b -> Key b <> argName) ->
   searchAttributesForArg attributes argName = notFound) /\
  notFound <> 0 /\
  (forall i : nat, notFound <> Z.of_nat i).
Proof.
  assert (Hfound : forall (i : nat) (a : Attribute),
            attributes !! i = Some a -> Key a = argName ->
            exists k : nat, (k <= i)%nat /\
              searchAttributesForArg attributes argName = Z.of_nat k /\
              (forall (j : nat) (b : Attribute),
                 (j < k)%nat -> attributes !! j = Some b -> Key b <> argName) /\
              exists c, attributes !! k = Some c /\ Key c = argName).
  { intros i a Hi Ha.
    destruct (firstAttribute attributes argName) as [c|] eqn:Hf.
    - destruct (searchFrom_found 0 _ _ _ Hf) as (k & Hk & Hlook & Hkey & Hfirst).
      exists k. split; [|split; [|split]].
      + destruct (decide (k <= i)%nat) as [|Hgt]; [done|].
        destruct (Hfirst i a); [lia|done|done].
      + unfold searchAttributesForArg. rewrite Hk. lia.
      + exact Hfirst.
      + by exists c.
    - pose proof (proj1 (firstAttribute_None _ _) Hf) as Hall. by destruct (Hall i a). }
  split; [|split; [|split; [|split]]].
  - intros i a Hi Ha Hnone.
    destruct (Hfound i a Hi Ha) as (k & Hle & Hk & _ & c & Hc & Hkey).
    destruct (decide (k = i)) as [->|Hne]; [done|].
    destruct (Hnone k c); [lia|done|done].
  - intros i j a b Hij Hi Hj Ha Hb Hs.
    destruct (Hfound i a Hi Ha) as (k & Hle & Hk & _). lia.
  - intros Hnone. apply search_notFound. by apply firstAttribute_None.
  - unfold notFound. lia.
  - intros i. unfold notFound. lia.
Qed.

(** ** Independence of the two builders *)

Lemma argValue_ext (pe pe' : descriptor) (event event' : Event) (arg : Argument abiType) :
  customValueDecoders pe' = customValueDecoders pe ->
  Type_ event' = Type_ event ->
  firstAttribute (Attributes event') (Name arg) = firstAttribute (Attributes event) (Name arg) ->
  argValue pe' event' arg = argValue pe event arg.
Proof. intros Hc Ht Hf. unfold argValue. by rewrite Hc, Ht, Hf. Qed.

Lemma argValues_withoutKey_missing (pe : descriptor) (event : Event)
    (args : list (Argument abiType)) (arg : Argument abiType) :
  arg ∈ args ->
  (exists values, argValues pe event args = Ok values) ->
  argValues pe (withoutKey (Name arg) event) args =
    Err (NoAttributeKey (Type_ event) (Name arg)).
Proof.
  induction args as [|a rest IH]; intros Hin Hall; [by apply elem_of_nil in Hin|].
  simpl. destruct (decide (Name a = Name arg)) as [Heq|Hne].
  - unfold argValue at 1. rewrite Heq, firstAttribute_withoutKey_eq. done.
  - rewrite (argValue_ext pe pe event (withoutKey (Name arg) event) a); try done;
      [|apply firstAttribute_withoutKey_ne; congruence].
    destruct Hall as [values Hvalues]. simpl in Hvalues.
    destruct (argValue pe event a); [|discriminate].
    destruct (argValues pe event rest) as [vs|] eqn:Hrest; [|discriminate].
    rewrite IH; [done| |by eexists].
    apply elem_of_cons in Hin as [->|Hin]; [done|exact Hin].
Qed.

(** C7.  The outcome of [MakeData] is the same for two descriptors with the
    same non-indexed arguments and overrides and two events of the same
    type that agree on the attribute located for each non-indexed argument;
    likewise for [MakeTopics], the identifier and the indexed arguments.
    So, for an event that both builders translate, taking away the
    attribute of a non-indexed argument whose name no indexed argument has
    makes [MakeData] fail with the no-attribute-key error for it, while
    [MakeTopics] returns the same topics as before. *)
Theorem builders_independent (pe : descriptor) (event : Event) :
  (forall (pe' : descriptor) (event' : Event),
     nonIndexedInputs pe' = nonIndexedInputs pe ->
     customValueDecoders pe' = customValueDecoders pe ->
     Type_ event' = Type_ event ->
     (forall arg, arg ∈ nonIndexedInputs pe ->
        firstAttribute (Attributes event') (Name arg) =
        firstAttribute (Attributes event) (Name arg)) ->
     exists r, MakeData (pe, event) = Done (r, (pe, event)) /\
               MakeData (pe', event') = Done (r, (pe', event'))) /\
  (forall (pe' : descriptor) (event' : Event),
     id pe' = id pe ->
     indexedInputs pe' = indexedInputs pe ->
     customValueDecoders pe' = customValueDecoders pe ->
     Type_ event' = Type_ event ->
     (forall arg, arg ∈ indexedInputs pe ->
        firstAttribute (Attributes event') (Name arg) =
        firstAttribute (Attributes event) (Name arg)) ->
     exists r, MakeTopics (pe, event) = Done (r, (pe, event)) /\
               MakeTopics (pe', event') = Done (r, (pe', event'))) /\
  (forall (arg : Argument abiType) (hashes : list Hash) (data : slice Byte.byte),
     arg ∈ nonIndexedInputs pe ->
     (forall a, a ∈ indexedInputs pe -> Name a <> Name arg) ->
     MakeTopics (pe, event) = Done ((Some hashes, None), (pe, event)) ->
     MakeData (pe, event) = Done ((data, None), (pe, event)) ->
     MakeData (pe, withoutKey (Name arg) event) =
       Done ((None, Some (NoAttributeKey (Type_ event) (Name arg))),
             (pe, withoutKey (Name arg) event)) /\
     MakeTopics (pe, withoutKey (Name arg) event) =
       Done ((Some hashes, None), (pe, withoutKey (Name arg) event))).
Proof.
  split; [|split].
  - intros pe' event' Hargs Hcustom Htype Hattrs.
    rewrite !MakeData_run. eexists. split; [done|].
    unfold dataOf. rewrite Hargs.
    rewrite (argValues_ext pe' pe event' event); [done|].
    intros arg Hin. apply argValue_ext; auto.
  - intros pe' event' Hid Hargs Hcustom Htype Hattrs.
    rewrite !MakeTopics_run. eexists. split; [done|].
    unfold topicsOf. rewrite Hargs, Hid.
    rewrite (argValues_ext pe' pe event' event); [done|].
    intros arg Hin. apply argValue_ext; auto.
  - intros arg hashes data Hin Hnames Htopics Hdata.
    rewrite MakeTopics_run in Htopics. rewrite MakeData_run in Hdata.
    injection Htopics as Htopics. injection Hdata as Hdata.
    rewrite MakeData_run, MakeTopics_run. split.
    + rewrite (dataOf_failure pe _ (NoAttributeKey (Type_ event) (Name arg))); [done|].
      apply argValues_withoutKey_missing; [done|].
      unfold dataOf in Hdata.
      destruct (argValues pe event (nonIndexedInputs pe)); [by eexists|discriminate].
    + rewrite <- Htopics. unfold topicsOf.
      rewrite (argValues_ext pe pe (withoutKey (Name arg) event) event); [done|].
      intros a Ha. apply argValue_ext; [done|done|].
      apply firstAttribute_withoutKey_ne. intros Heq. by apply (Hnames a Ha).
Qed.

(** ** The builders and the attribute count *)

(** C9.  Whatever the imported functions are, there are a descriptor and an
    event with fewer attributes than the descriptor has arguments, so that
    [ValidateAttributes] returns its error, on which [MakeTopics] succeeds:
    the one indexed argument has its attribute and it decodes.  Likewise
    there are such a descriptor and event on which [MakeData] returns what
    the packing of the decoded value returns. *)
Theorem builders_ignore_attribute_count (address : Address) (type : abiType) (h : Hash) :
  (forall h : Hash, topicRule (Some (hashDyn h)) = Ok h) ->
  (exists (pe : descriptor) (event : Event) (hashes : list Hash),
     (length (Attributes event) <
      length (indexedInputs pe) + length (nonIndexedInputs pe))%nat /\
     ValidateAttributes (pe, event) =
       Done (Some (NotEnoughAttributes (Type_ event)), (pe, event)) /\
     (forall arg, arg ∈ indexedInputs pe ->
        exists value, argValue pe event arg = Ok value) /\
     MakeTopics (pe, event) = Done ((Some hashes, None), (pe, event))) /\
  (exists (pe : descriptor) (event : Event) (values : list (any dyn)),
     (length (Attributes event) <
      length (indexedInputs pe) + length (nonIndexedInputs pe))%nat /\
     ValidateAttributes (pe, event) =
       Done (Some (NotEnoughAttributes (Type_ event)), (pe, event)) /\
     forall data, PackValues (nonIndexedInputs pe) values = (data, None) ->
       MakeData (pe, event) = Done ((data, None), (pe, event))).
Proof.
  intros Hrule.
  pose (decode := (fun _ : string => (Some (hashDyn h), @None error)) : decodeFn dyn).
  split.
  - exists {| moduleAddr := address; id := h;
              indexedInputs := [ {| Name := "from"; ArgType := type |} ];
              nonIndexedInputs := [ {| Name := "amount"; ArgType := type |} ];
              customValueDecoders := Some {[ "from" := Some decode ]} |},
           {| Type_ := "transfer";
              Attributes := [ {| Key := "from"; Value := "0xAA" |} ] |},
           [h; h].
    assert (Hfrom : forall arg : Argument abiType, Name arg = "from" ->
              argValue {| moduleAddr := address; id := h;
                indexedInputs := [ {| Name := "from"; ArgType := type |} ];
                nonIndexedInputs := [ {| Name := "amount"; ArgType := type |} ];
                customValueDecoders := Some {[ "from" := Some decode ]} |}
              {| Type_ := "transfer";
                 Attributes := [ {| Key := "from"; Value := "0xAA" |} ] |} arg
              = Ok (Some (hashDyn h))).
    { intros arg Hname. unfold argValue, resolve; simpl. rewrite Hname. simpl.
      by rewrite lookup_singleton_eq. }
    split; [simpl; lia|]. split; [by rewrite ValidateAttributes_run|]. split.
    + intros arg Hin. simpl in Hin. apply list_elem_of_singleton in Hin as ->.
      eexists. by apply Hfrom.
    + rewrite MakeTopics_run. unfold topicsOf. simpl.
      rewrite Hfrom by done. rewrite Hrule. simpl. by rewrite Hrule.
  - exists {| moduleAddr := address; id := h;
              indexedInputs := [ {| Name := "from"; ArgType := type |} ];
              nonIndexedInputs := [ {| Name := "amount"; ArgType := type |} ];
              customValueDecoders := Some {[ "amount" := Some decode ]} |},
           {| Type_ := "transfer";
              Attributes := [ {| Key := "amount"; Value := "100" |} ] |},
           [Some (hashDyn h)].
    split; [simpl; lia|]. split; [by rewrite ValidateAttributes_run|].
    intros data Hpack. rewrite MakeData_run. unfold dataOf, argValue, resolve. simpl.
    unfold argValue, resolve; simpl. rewrite lookup_singleton_eq. simpl.
    simpl in Hpack. unfold any in *. by rewrite Hpack.
Qed.

End Properties.

(** ** The theorems at the transfer scenario *)

Lemma MakeTopics_length_and_identifier_witness :
  exists hashes : list Z,
    Some [Scenario.H; 170] = Some hashes /\
    length hashes = 2%nat /\
    hashes !! 0%nat = Some Scenario.H.
Proof.
  apply (MakeTopics_length_and_identifier (Address := Z) Scenario.transfer Scenario.sent
           (Some [Scenario.H; 170]) (Scenario.transfer, Scenario.sent)).
  - intros h. reflexivity.
  - simpl. lia.
  - vm_compute. reflexivity.
Defined.

Lemma getValueDecoder_total_witness :
  getValueDecoder "memo" (Scenario.exchange, Scenario.exchanged) =
    Done ((None, Some (NoValueDecoder "memo")), (Scenario.exchange, Scenario.exchanged)) /\
  getValueDecoder "from" (Scenario.transfer, Scenario.sent) =
    Done ((Some Scenario.decodeAddress, None), (Scenario.transfer, Scenario.sent)).
Proof.
  split.
  - rewrite (proj2 (getValueDecoder_total (Address := Z) Scenario.exchange Scenario.exchanged
                      "memo")); [reflexivity|].
    right. eexists. split; reflexivity.
  - rewrite (proj2 (getValueDecoder_total (Address := Z) Scenario.transfer Scenario.sent
                      "from")); [reflexivity|].
    left. reflexivity.
Defined.
Lemma getValueDecoder_resolution_witness :
  getValueDecoder "amount"
      (Scenario.transferWith (Some {[ "amount" := Some Scenario.decodeVerbatim ]}),
       Scenario.sent) =
    Done ((Some Scenario.decodeVerbatim, None),
          (Scenario.transferWith (Some {[ "amount" := Some Scenario.decodeVerbatim ]}),
           Scenario.sent)) /\
  getValueDecoder "from" (Scenario.transfer, Scenario.sent) =
    Done ((Some Scenario.decodeAddress, None), (Scenario.transfer, Scenario.sent)) /\
  MakeTopics (Scenario.noted, Scenario.note) =
    Done ((None, Some (NoValueDecoder "memo")), (Scenario.noted, Scenario.note)) /\
  MakeData (Scenario.noted, Scenario.note) =
    Done ((None, Some (NoValueDecoder "memo")), (Scenario.noted, Scenario.note)).
Proof.
  split; [|split].
  - apply (proj1 (getValueDecoder_resolution (Address := Z)
                    (Scenario.transferWith (Some {[ "amount" := Some Scenario.decodeVerbatim ]}))
                    Scenario.sent "amount")).
    reflexivity.
  - apply (proj1 (proj2 (getValueDecoder_resolution (Address := Z)
                           Scenario.transfer Scenario.sent "from"))); reflexivity.
  - assert (Hcustom : mapIndex (customValueDecoders Scenario.noted) "memo" = None)
      by (vm_compute; reflexivity).
    assert (Hdefault : mapIndex (defaultCosmosValueDecoders (Hash := Z) (abiType := string))
                         "memo" = None)
      by (vm_compute; reflexivity).
    destruct (proj2 (proj2 (getValueDecoder_resolution (Address := Z)
                              Scenario.noted Scenario.note "memo")) Hcustom Hdefault)
      as [_ Hbuilders].
    destruct (Hbuilders {| Name := "memo"; ArgType := "string" |}
                {| Key := "memo"; Value := "hi" |} eq_refl eq_refl)
      as (_ & _ & _ & _ & Hfirst).
    split.
    + apply (Hfirst [ {| Name := "from"; ArgType := "address" |} ] []); [|reflexivity].
      constructor; [|constructor]. eexists. reflexivity.
    + apply (Hfirst [ {| Name := "amount"; ArgType := "uint256" |} ] []); [|reflexivity].
      constructor; [|constructor]. eexists. reflexivity.
Defined.

Lemma builders_all_or_nothing_witness :
  MakeData (Scenario.transfer, Scenario.sentNoAmount) =
    Done ((None, Some (NoAttributeKey "transfer" "amount")),
          (Scenario.transfer, Scenario.sentNoAmount)) /\
  (exists e, MakeData (Scenario.transfer, Scenario.sentBadAmount) =
     Done ((None, Some e), (Scenario.transfer, Scenario.sentBadAmount))).
Proof.
  split.
  - destruct (builders_all_or_nothing (Address := Z) Scenario.transfer Scenario.sentNoAmount)
      as (_ & _ & _ & Hmissing).
    apply (Hmissing {| Name := "amount"; ArgType := "uint256" |} [] []).
    + intros [|[|j]] b Hb; simpl in Hb; try discriminate.
      injection Hb as <-. simpl. discriminate.
    + constructor.
    + reflexivity.
  - destruct (builders_all_or_nothing (Address := Z) Scenario.transfer Scenario.sentBadAmount)
      as (_ & _ & Hfails & _).
    apply (Hfails {| Name := "amount"; ArgType := "uint256" |}).
    + right. exists {| Key := "amount"; Value := "lots" |}, Scenario.decodeAmount,
        None, (External "invalid amount").
      split; [reflexivity|]. split; reflexivity.
    + simpl. apply list_elem_of_here.
Defined.

Lemma searchAttributesForArg_first_witness :
  searchAttributesForArg (Attributes Scenario.exchanged) "from" = 1 /\
  searchAttributesForArg (Attributes Scenario.exchanged) "from" <> 3.
Proof.
  destruct (searchAttributesForArg_first (Attributes Scenario.exchanged) "from")
    as (Hfirst & Hlater & _).
  split.
  - apply (Hfirst 1%nat {| Key := "from"; Value := "0x01" |}); [reflexivity|reflexivity|].
    intros [|j] b Hj Hb; [|lia]. simpl in Hb. injection Hb as <-. simpl. discriminate.
  - apply (Hlater 1%nat 3%nat {| Key := "from"; Value := "0x01" |}
             {| Key := "from"; Value := "0x03" |}); [lia|reflexivity..].
Defined.

Lemma builders_independent_witness :
  MakeData (Scenario.transfer, withoutKey "amount" Scenario.sent) =
    Done ((None, Some (NoAttributeKey "transfer" "amount")),
          (Scenario.transfer, withoutKey "amount" Scenario.sent)) /\
  MakeTopics (Scenario.transfer, withoutKey "amount" Scenario.sent) =
    Done ((Some [Scenario.H; 170], None),
          (Scenario.transfer, withoutKey "amount" Scenario.sent)).
Proof.
  destruct (builders_independent (Address := Z) Scenario.transfer Scenario.sent)
    as (_ & _ & Hscenario).
  apply (Hscenario {| Name := "amount"; ArgType := "uint256" |} [Scenario.H; 170]
           (Some (Scenario.word32 100))).
  - simpl. apply list_elem_of_here.
  - intros a Ha. simpl in Ha. apply list_elem_of_singleton in Ha as ->. simpl. discriminate.
  - vm_compute. reflexivity.
  - vm_compute. reflexivity.
Defined.

Lemma builders_ignore_attribute_count_witness :
  exists (pe : @PrecompileEvent Z Z string Scenario.value) (event : Event) (hashes : list Z),
    (length (Attributes event) <
     length (indexedInputs pe) + length (nonIndexedInputs pe))%nat /\
    ValidateAttributes (pe, event) =
      Done (Some (NotEnoughAttributes (Type_ event)), (pe, event)) /\
    (forall arg, arg ∈ indexedInputs pe -> exists value, argValue pe event arg = Ok value) /\
    MakeTopics (pe, event) = Done ((Some hashes, None), (pe, event)).
Proof.
  apply (builders_ignore_attribute_count (Address := Z) 7 "address" Scenario.H).
  intros h. reflexivity.
Defined.

(** ** What the builders return on success *)

Section Further.

Context {Address : Type} `{imports : Imports Hash abiType dyn}.

Abbreviation descriptor := (@PrecompileEvent Address Hash abiType dyn).

Lemma argValue_decodesTo (pe : descriptor) (event : Event) (arg : Argument abiType)
    (value : any dyn) :
  argValue pe event arg = Ok value <-> decodesTo pe event arg value.
Proof.
  unfold argValue, decodesTo. split.
  - destruct (firstAttribute (Attributes event) (Name arg)) as [attr|]; [|discriminate].
    destruct (resolve (customValueDecoders pe) (Key attr)) as [decode|] eqn:Hresolve;
      [|discriminate].
    destruct (decode (Value attr)) as [v [e|]] eqn:Hdecode; [discriminate|].
    intros Hv. injection Hv as <-. exists attr, decode.
    by rewrite getValueDecoder_run, Hresolve.
  - intros (attr & decode & -> & Hget & Hdecode).
    rewrite getValueDecoder_run in Hget.
    destruct (resolve (customValueDecoders pe) (Key attr)) as [d|]; [|discriminate].
    injection Hget as ->. by rewrite Hdecode.
Qed.

Lemma argValues_decodesTo (pe : descriptor) (event : Event) (args : list (Argument abiType))
    (values : list (any dyn)) :
  argValues pe event args = Ok values <-> Forall2 (decodesTo pe event) args values.
Proof.
  revert values. induction args as [|arg rest IH]; intros values; simpl.
  - split.
    + intros Hv. injection Hv as <-. constructor.
    + intros Hv. by apply Forall2_nil_inv_l in Hv as ->.
  - split.
    + destruct (argValue pe event arg) as [value|] eqn:Harg; [|discriminate].
      destruct (argValues pe event rest) as [vs|]; [|discriminate].
      intros Hv. injection Hv as <-. constructor.
      * by apply argValue_decodesTo.
      * by apply IH.
    + intros Hv. apply Forall2_cons_inv_l in Hv as (value & vs & Hvalue & Hvs & ->).
      apply argValue_decodesTo in Hvalue. apply IH in Hvs.
      by rewrite Hvalue, Hvs.
Qed.

Lemma abi_topics_Forall2 (filter : list (any dyn)) (topics : list Hash) :
  abi_topics filter = Ok topics <->
  Forall2 (fun rule topic => topicRule rule = Ok topic) filter topics.
Proof.
  revert topics. induction filter as [|rule rest IH]; intros topics; simpl.
  - split.
    + intros Ht. injection Ht as <-. constructor.
    + intros Ht. by apply Forall2_nil_inv_l in Ht as ->.
  - split.
    + destruct (topicRule rule) as [topic|] eqn:Hrule; [|discriminate].
      destruct (abi_topics rest) as [ts|]; [|discriminate].
      intros Ht. injection Ht as <-. constructor; [done|by apply IH].
    + intros Ht. apply Forall2_cons_inv_l in Ht as (topic & ts & Htopic & Hts & ->).
      apply IH in Hts. by rewrite Htopic, Hts.
Qed.

(** [MakeTopics] succeeds with [hashes] exactly when every indexed argument,
    in the order of the descriptor, decodes to a value the ABI's rule turns
    into a topic; [hashes] is then the identifier followed by these topics,
    so the topic of the i-th indexed argument is in slot i + 1. *)
Theorem MakeTopics_success_layout (pe : descriptor) (event : Event) (hashes : list Hash) :
  (forall h : Hash, topicRule (Some (hashDyn h)) = Ok h) ->
  MakeTopics (pe, event) = Done ((Some hashes, None), (pe, event)) <->
  exists (values : list (any dyn)) (topics : list Hash),
    Forall2 (decodesTo pe event) (indexedInputs pe) values /\
    Forall2 (fun value topic => topicRule value = Ok topic) values topics /\
    hashes = id pe :: topics.
Proof.
  intros Hrule. rewrite MakeTopics_run. unfold topicsOf. split.
  - intros Hrun. injection Hrun as Hrun.
    destruct (argValues pe event (indexedInputs pe)) as [values|] eqn:Hvalues; [|discriminate].
    simpl in Hrun. rewrite Hrule in Hrun.
    destruct (abi_topics values) as [topics|] eqn:Htopics; [|discriminate].
    injection Hrun as <-. exists values, topics.
    split; [by apply argValues_decodesTo|]. split; [by apply abi_topics_Forall2|done].
  - intros (values & topics & Hvalues & Htopics & ->).
    apply argValues_decodesTo in Hvalues. apply abi_topics_Forall2 in Htopics.
    rewrite Hvalues. simpl. by rewrite Hrule, Htopics.
Qed.

(** [MakeData] succeeds with [data] exactly when every non-indexed argument,
    in the order of the descriptor, decodes to a value and [PackValues]
    packs these values, in that order, into [data] with a nil error. *)
Theorem MakeData_success_layout (pe : descriptor) (event : Event) (data : slice Byte.byte) :
  MakeData (pe, event) = Done ((data, None), (pe, event)) <->
  exists values : list (any dyn),
    Forall2 (decodesTo pe event) (nonIndexedInputs pe) values /\
    PackValues (nonIndexedInputs pe) values = (data, None).
Proof.
  rewrite MakeData_run. unfold dataOf. split.
  - intros Hrun. injection Hrun as Hrun.
    destruct (argValues pe event (nonIndexedInputs pe)) as [values|] eqn:Hvalues;
      [|discriminate].
    destruct (PackValues (nonIndexedInputs pe) values) as [d [e|]] eqn:Hpack; [discriminate|].
    injection Hrun as <-. exists values. split; [by apply argValues_decodesTo|done].
  - intros (values & Hvalues & Hpack).
    apply argValues_decodesTo in Hvalues. by rewrite Hvalues, Hpack.
Qed.

(** An encoding failure after every attribute decoded fails the call with
    nothing but the error: a value the ABI's rule refuses fails
    [MakeTopics], and whatever bytes [PackValues] returns beside an error,
    [MakeData] returns nil and that error. *)
Theorem builders_encoding_error (pe : descriptor) (event : Event) (values : list (any dyn))
    (e : error) :
  (Forall2 (decodesTo pe event) (indexedInputs pe) values ->
   abi_topics (Some (hashDyn (id pe)) :: values) = Err e ->
   MakeTopics (pe, event) = Done ((None, Some e), (pe, event))) /\
  (forall data : slice Byte.byte,
   Forall2 (decodesTo pe event) (nonIndexedInputs pe) values ->
   PackValues (nonIndexedInputs pe) values = (data, Some e) ->
   MakeData (pe, event) = Done ((None, Some e), (pe, event))).
Proof.
  split.
  - intros Hvalues Htopics. rewrite MakeTopics_run. unfold topicsOf.
    apply argValues_decodesTo in Hvalues. by rewrite Hvalues, Htopics.
  - intros data Hvalues Hpack. rewrite MakeData_run. unfold dataOf.
    apply argValues_decodesTo in Hvalues. by rewrite Hvalues, Hpack.
Qed.

(** A descriptor without indexed arguments gets the single topic [id] from
    every event, and one without non-indexed arguments gets the packing of
    no values, whatever the attributes of the event are, even none. *)
Theorem builders_no_arguments (pe : descriptor) (event : Event) :
  (forall h : Hash, topicRule (Some (hashDyn h)) = Ok h) ->
  (indexedInputs pe = [] ->
   MakeTopics (pe, event) = Done ((Some [id pe], None), (pe, event))) /\
  (forall data : slice Byte.byte,
   nonIndexedInputs pe = [] -> PackValues [] [] = (data, None) ->
   MakeData (pe, event) = Done ((data, None), (pe, event))).
Proof.
  intros Hrule. split.
  - intros Hnone. rewrite MakeTopics_run. unfold topicsOf.
    rewrite Hnone. simpl. by rewrite Hrule.
  - intros data Hnone Hpack. rewrite MakeData_run. unfold dataOf.
    rewrite Hnone. simpl. by rewrite Hpack.
Qed.

End Further.
(** ** The order and the number of the attributes *)

Lemma firstAttribute_elem (attributes : list Attribute) (argName : string) (a : Attribute) :
  firstAttribute attributes argName = Some a -> a ∈ attributes /\ Key a = argName.
Proof.
  intros Hf. destruct (searchFrom_found 0 _ _ _ Hf) as (k & _ & Hlook & Hkey & _).
  split; [by apply list_elem_of_lookup_2 in Hlook|done].
Qed.

Lemma firstAttribute_unique (attributes : list Attribute) (argName : string) (a : Attribute) :
  NoDup (Key <$> attributes) -> a ∈ attributes -> Key a = argName ->
  firstAttribute attributes argName = Some a.
Proof.
  unfold firstAttribute.
  induction attributes as [|b rest IH]; intros Hnodup Hin Hkey; simpl in *.
  - by apply elem_of_nil in Hin.
  - apply NoDup_cons in Hnodup as [Hfresh Hnodup].
    apply elem_of_cons in Hin as [->|Hin].
    + by rewrite bool_decide_eq_true_2.
    + rewrite bool_decide_eq_false_2; [by apply IH|].
      intros Hb. apply Hfresh. rewrite Hb, <- Hkey. by apply list_elem_of_fmap_2.
Qed.

Lemma firstAttribute_Permutation (attributes attributes' : list Attribute) (argName : string) :
  NoDup (Key <$> attributes) -> attributes ≡ₚ attributes' ->
  firstAttribute attributes argName = firstAttribute attributes' argName.
Proof.
  intros Hnodup Hperm.
  destruct (firstAttribute attributes argName) as [a|] eqn:Hf.
  - apply firstAttribute_elem in Hf as [Hin Hkey]. symmetry.
    apply firstAttribute_unique; [by rewrite <- Hperm|by rewrite <- Hperm|done].
  - destruct (firstAttribute attributes' argName) as [a|] eqn:Hf'; [|done].
    apply firstAttribute_elem in Hf' as [Hin Hkey].
    rewrite <- Hperm in Hin. apply list_elem_of_lookup_1 in Hin as [j Hj].
    by destruct (proj1 (firstAttribute_None _ _) Hf j a Hj).
Qed.

Lemma firstAttribute_app (attributes extra : list Attribute) (argName : string) (a : Attribute) :
  firstAttribute attributes argName = Some a ->
  firstAttribute (attributes ++ extra) argName = Some a.
Proof.
  unfold firstAttribute.
  induction attributes as [|b rest IH]; simpl; [discriminate|].
  destruct (bool_decide (Key b = argName)); [done|exact IH].
Qed.

Section Attributes.

Context {Address : Type} `{imports : Imports Hash abiType dyn}.

Abbreviation descriptor := (@PrecompileEvent Address Hash abiType dyn).

Lemma argValues_withMore (pe : descriptor) (event : Event) (extra : list Attribute)
    (args : list (Argument abiType)) (values : list (any dyn)) :
  argValues pe event args = Ok values ->
  argValues pe (withMore extra event) args = Ok values.
Proof.
  revert values. induction args as [|arg rest IH]; intros values; simpl; [done|].
  destruct (argValue pe event arg) as [value|] eqn:Harg; [|discriminate].
  destruct (argValues pe event rest) as [vs|]; [|discriminate].
  intros Hv. rewrite (IH vs eq_refl).
  assert (Hsame : argValue pe (withMore extra event) arg = Ok value).
  { unfold argValue in *. simpl.
    destruct (firstAttribute (Attributes event) (Name arg)) as [attr|] eqn:Hf; [|discriminate].
    by rewrite (firstAttribute_app _ extra _ _ Hf). }
  by rewrite Hsame.
Qed.

(** When no two attributes of the event have the same key, the order of the
    attributes does not matter: an event with the same type and the same
    attributes in another order gets the same topics, the same data, the
    same errors and the same answer of the validator. *)
Theorem attribute_order_irrelevant (pe : descriptor) (event event' : Event) :
  Type_ event' = Type_ event ->
  Attributes event ≡ₚ Attributes event' ->
  NoDup (Key <$> Attributes event) ->
  (exists r, MakeTopics (pe, event) = Done (r, (pe, event)) /\
             MakeTopics (pe, event') = Done (r, (pe, event'))) /\
  (exists r, MakeData (pe, event) = Done (r, (pe, event)) /\
             MakeData (pe, event') = Done (r, (pe, event'))) /\
  (exists r, ValidateAttributes (pe, event) = Done (r, (pe, event)) /\
             ValidateAttributes (pe, event') = Done (r, (pe, event'))).
Proof.
  intros Htype Hperm Hnodup.
  assert (Hargs : forall args, argValues pe event' args = argValues pe event args).
  { intros args. apply argValues_ext. intros arg _.
    apply argValue_ext; [done|done|]. symmetry. by apply firstAttribute_Permutation. }
  rewrite !MakeTopics_run, !MakeData_run, !ValidateAttributes_run.
  split; [|split]; eexists; (split; [done|]).
  - unfold topicsOf. by rewrite Hargs.
  - unfold dataOf. by rewrite Hargs.
  - by rewrite Htype, <- (Permutation_length Hperm).
Qed.

(** Attributes after those of the event never change a success: the first
    match wins, so a builder that succeeds on an event returns the same
    topics, or the same data, when further attributes follow, duplicates of
    argument names included. *)
Theorem later_attributes_ignored (pe : descriptor) (event : Event) (extra : list Attribute) :
  (forall hashes : list Hash,
     MakeTopics (pe, event) = Done ((Some hashes, None), (pe, event)) ->
     MakeTopics (pe, withMore extra event) =
       Done ((Some hashes, None), (pe, withMore extra event))) /\
  (forall data : slice Byte.byte,
     MakeData (pe, event) = Done ((data, None), (pe, event)) ->
     MakeData (pe, withMore extra event) =
       Done ((data, None), (pe, withMore extra event))).
Proof.
  rewrite !MakeTopics_run, !MakeData_run. split.
  - intros hashes Hrun. injection Hrun as Hrun. rewrite <- Hrun.
    unfold topicsOf in *.
    destruct (argValues pe event (indexedInputs pe)) as [values|] eqn:Hvalues; [|discriminate].
    by rewrite (argValues_withMore _ _ extra _ _ Hvalues).
  - intros data Hrun. injection Hrun as Hrun. rewrite <- Hrun.
    unfold dataOf in *.
    destruct (argValues pe event (nonIndexedInputs pe)) as [values|] eqn:Hvalues;
      [|discriminate].
    by rewrite (argValues_withMore _ _ extra _ _ Hvalues).
Qed.

Lemma argValues_keys (pe : descriptor) (event : Event) (args : list (Argument abiType))
    (values : list (any dyn)) :
  argValues pe event args = Ok values ->
  forall name, name ∈ Name <$> args -> name ∈ Key <$> Attributes event.
Proof.
  intros Hvalues name Hname.
  apply list_elem_of_fmap in Hname as (arg & -> & Hin).
  assert (Hall : exists values, argValues pe event args = Ok values) by by eexists.
  apply argValues_all in Hall. rewrite Forall_forall in Hall.
  destruct (Hall arg Hin) as [value Hvalue]. unfold argValue in Hvalue.
  destruct (firstAttribute (Attributes event) (Name arg)) as [attr|] eqn:Hf; [|discriminate].
  apply firstAttribute_elem in Hf as [Hattr <-]. by apply list_elem_of_fmap_2.
Qed.

(** When the arguments of the descriptor have pairwise different names, an
    event both builders translate has enough attributes: the validator
    accepts it. *)
Theorem builders_success_implies_valid (pe : descriptor) (event : Event)
    (hashes : list Hash) (data : slice Byte.byte) :
  NoDup (Name <$> (indexedInputs pe ++ nonIndexedInputs pe)) ->
  MakeTopics (pe, event) = Done ((Some hashes, None), (pe, event)) ->
  MakeData (pe, event) = Done ((data, None), (pe, event)) ->
  ValidateAttributes (pe, event) = Done (None, (pe, event)).
Proof.
  intros Hnodup Htopics Hdata.
  rewrite MakeTopics_run in Htopics. rewrite MakeData_run in Hdata.
  injection Htopics as Htopics. injection Hdata as Hdata.
  unfold topicsOf in Htopics. unfold dataOf in Hdata.
  destruct (argValues pe event (indexedInputs pe)) as [ivalues|] eqn:Hindexed;
    [|discriminate].
  destruct (argValues pe event (nonIndexedInputs pe)) as [nvalues|] eqn:Hnon;
    [|discriminate].
  assert (Hsub : Name <$> (indexedInputs pe ++ nonIndexedInputs pe)
                 ⊆+ Key <$> Attributes event).
  { apply NoDup_submseteq; [done|].
    intros name Hname. rewrite fmap_app in Hname.
    apply elem_of_app in Hname as [Hname|Hname].
    - by apply (argValues_keys pe event _ _ Hindexed).
    - by apply (argValues_keys pe event _ _ Hnon). }
  apply submseteq_length in Hsub. rewrite !length_fmap, length_app in Hsub.
  rewrite ValidateAttributes_run. by rewrite decide_False by lia.
Qed.

End Attributes.

(** ** The table of overrides *)

Section Overrides.

Context {Address : Type} `{imports : Imports Hash abiType dyn}.

Abbreviation descriptor := (@PrecompileEvent Address Hash abiType dyn).

Lemma sameAnswers_mapIndex (decoders decoders' : ValueDecoders dyn) (pe : descriptor)
    (event : Event) :
  (forall key, mapIndex decoders key = mapIndex decoders' key) ->
  sameAnswers decoders decoders' pe event.
Proof.
  intros Hsame.
  assert (Hresolve : forall key, resolve decoders key = resolve decoders' key).
  { intros key. unfold resolve. by rewrite Hsame. }
  assert (Hargs : forall args,
            argValues (withDecoders decoders pe) event args =
            argValues (withDecoders decoders' pe) event args).
  { intros args. apply argValues_ext. intros arg _. unfold argValue. simpl.
    destruct (firstAttribute (Attributes event) (Name arg)); [|done].
    by rewrite Hresolve. }
  unfold sameAnswers. split; [|split].
  - intros key. rewrite !getValueDecoder_run. simpl.
    eexists. split; [done|]. by rewrite Hresolve.
  - rewrite !MakeTopics_run. eexists. split; [done|].
    unfold topicsOf. simpl. by rewrite Hargs.
  - rewrite !MakeData_run. eexists. split; [done|].
    unfold dataOf. simpl. by rewrite Hargs.
Qed.

(** An override entry that holds a nil func is the same as no entry for the
    key, and an empty table of overrides is the same as a nil one: no call
    of [getValueDecoder], [MakeTopics] or [MakeData] tells them apart. *)
Theorem nil_override_is_no_override (pe : descriptor) (event : Event)
    (entries : gmap string (valueDecoder dyn)) (attrKey : string) :
  sameAnswers (Some (<[attrKey := None]> entries)) (Some (delete attrKey entries)) pe event /\
  sameAnswers (Some ∅) None pe event.
Proof.
  split; apply sameAnswers_mapIndex; intros key; simpl.
  - destruct (decide (attrKey = key)) as [->|Hne].
    + by rewrite lookup_insert_eq, lookup_delete_eq.
    + by rewrite lookup_insert_ne, lookup_delete_ne.
  - by rewrite lookup_empty.
Qed.

(** Putting a decode function into the table of overrides for one key makes
    it the answer for that key, whatever the default table holds, and
    changes the answer for no other key. *)
Theorem override_insert (pe : descriptor) (event : Event)
    (entries : gmap string (valueDecoder dyn)) (attrKey : string) (decode : decodeFn dyn) :
  getValueDecoder attrKey (withDecoders (Some (<[attrKey := Some decode]> entries)) pe, event) =
    Done ((Some decode, None),
          (withDecoders (Some (<[attrKey := Some decode]> entries)) pe, event)) /\
  (forall key, key <> attrKey ->
     exists r,
       getValueDecoder key (withDecoders (Some entries) pe, event) =
         Done (r, (withDecoders (Some entries) pe, event)) /\
       getValueDecoder key
           (withDecoders (Some (<[attrKey := Some decode]> entries)) pe, event) =
         Done (r, (withDecoders (Some (<[attrKey := Some decode]> entries)) pe, event))).
Proof.
  split.
  - rewrite getValueDecoder_run. unfold resolve. simpl.
    by rewrite lookup_insert_eq.
  - intros key Hne. rewrite !getValueDecoder_run. unfold resolve. simpl.
    eexists. split; [done|]. by rewrite lookup_insert_ne.
Qed.

End Overrides.

(** ** Descriptors made by [NewPrecompileEvent] *)

Section Made.

Context {Address : Type} `{imports : Imports Hash abiType dyn}.
Context {abiEvent abiArguments : Type}.
Variable ID : abiEvent -> Hash.
Variable Inputs : abiEvent -> abiArguments.
Variable GetIndexed : abiArguments -> list (Argument abiType).
Variable NonIndexed : abiArguments -> list (Argument abiType).

(** For the descriptor [NewPrecompileEvent] makes from a module address, an
    ABI event and a table of decoders: [ModuleAddress] returns the address;
    a successful [MakeTopics] returns the identifier of the ABI event in
    slot 0 followed by one topic for each indexed input; the validator
    accepts exactly the events with at least as many attributes as the
    indexed and the non-indexed inputs together; and a decode function of
    the table is the answer of [getValueDecoder] for its key. *)
Theorem NewPrecompileEvent_methods (moduleAddress : Address) (abi : abiEvent)
    (decoders : ValueDecoders dyn) (event : Event) :
  let pe := NewPrecompileEvent ID Inputs GetIndexed NonIndexed moduleAddress abi decoders in
  ModuleAddress (pe, event) = Done (moduleAddress, (pe, event)) /\
  ((forall h : Hash, topicRule (Some (hashDyn h)) = Ok h) ->
   forall hashes : list Hash,
     MakeTopics (pe, event) = Done ((Some hashes, None), (pe, event)) ->
     hashes !! 0%nat = Some (ID abi) /\
     length hashes = (1 + length (GetIndexed (Inputs abi)))%nat) /\
  (ValidateAttributes (pe, event) = Done (None, (pe, event)) <->
   (length (GetIndexed (Inputs abi)) + length (NonIndexed (Inputs abi)) <=
    length (Attributes event))%nat) /\
  (forall (attrKey : string) (decode : decodeFn dyn),
     mapIndex decoders attrKey = Some decode ->
     getValueDecoder attrKey (pe, event) = Done ((Some decode, None), (pe, event))).
Proof.
  intros pe. split; [done|]. split; [|split].
  - intros Hrule hashes Hrun. rewrite MakeTopics_run in Hrun.
    injection Hrun as Hrun. unfold topicsOf in Hrun. simpl in Hrun.
    destruct (argValues pe event (GetIndexed (Inputs abi))) as [values|] eqn:Hvalues;
      [|discriminate].
    rewrite Hrule in Hrun.
    destruct (abi_topics values) as [topics|] eqn:Htopics; [|discriminate].
    injection Hrun as <-. split; [done|]. simpl.
    by rewrite (abi_topics_length _ _ Htopics), (argValues_length _ _ _ _ Hvalues).
  - rewrite ValidateAttributes_run. simpl.
    destruct (decide _) as [Hlt|Hge]; split; try done; intros; lia.
  - intros attrKey decode Hdecode. rewrite getValueDecoder_run. unfold resolve. simpl.
    by rewrite Hdecode.
Qed.

End Made.

(** ** The messages of the errors *)

(** The three errors made in this package never have the same message: a
    caller can tell a missing attribute, too few attributes and a missing
    decoder apart by the text alone, whatever the names in them are. *)
Theorem Error_kinds_distinct :
  (forall eventType argName eventType',
     Error (NoAttributeKey eventType argName) <> Error (NotEnoughAttributes eventType')) /\
  (forall eventType argName attrKey,
     Error (NoAttributeKey eventType argName) <> Error (NoValueDecoder attrKey)) /\
  (forall eventType attrKey,
     Error (NotEnoughAttributes eventType) <> Error (NoValueDecoder attrKey)).
Proof.
  repeat split; intros; simpl; discriminate.
Qed.

(** ** The further theorems at the transfer scenario *)

Lemma MakeTopics_success_layout_witness :
  exists (values : list (any Scenario.value)) (topics : list Z),
    Forall2 (decodesTo Scenario.transfer Scenario.sent)
      (indexedInputs Scenario.transfer) values /\
    Forall2 (fun value topic => Scenario.rule value = Ok topic) values topics /\
    [Scenario.H; 170] = Scenario.H :: topics.
Proof.
  pose proof (MakeTopics_success_layout (Address := Z) Scenario.transfer Scenario.sent
                [Scenario.H; 170]) as Hlayout.
  destruct Hlayout as [Hforward _]; [intros h; reflexivity|].
  apply Hforward. vm_compute. reflexivity.
Defined.

Lemma MakeData_success_layout_witness :
  exists values : list (any Scenario.value),
    Forall2 (decodesTo Scenario.transfer Scenario.sent)
      (nonIndexedInputs Scenario.transfer) values /\
    PackValues (nonIndexedInputs Scenario.transfer) values =
      (Some (Scenario.word32 100), None).
Proof.
  apply (proj1 (MakeData_success_layout (Address := Z) Scenario.transfer Scenario.sent
                  (Some (Scenario.word32 100)))).
  vm_compute. reflexivity.
Defined.

Lemma builders_encoding_error_witness :
  MakeTopics (Scenario.transferWith (Some {[ "from" := Some Scenario.decodeVerbatim ]}),
              Scenario.sent) =
    Done ((None, Some (External "unsupported indexed type: string")),
          (Scenario.transferWith (Some {[ "from" := Some Scenario.decodeVerbatim ]}),
           Scenario.sent)) /\
  MakeData (Scenario.transferWith (Some {[ "amount" := Some Scenario.decodeVerbatim ]}),
            Scenario.sent) =
    Done ((None, Some (External "abi: cannot pack value")),
          (Scenario.transferWith (Some {[ "amount" := Some Scenario.decodeVerbatim ]}),
           Scenario.sent)).
Proof.
  split.
  - apply (proj1 (builders_encoding_error (Address := Z)
                    (Scenario.transferWith (Some {[ "from" := Some Scenario.decodeVerbatim ]}))
                    Scenario.sent [Some (Scenario.VString "0xAA")]
                    (External "unsupported indexed type: string"))).
    + apply argValues_decodesTo. vm_compute. reflexivity.
    + vm_compute. reflexivity.
  - apply (proj2 (builders_encoding_error (Address := Z)
                    (Scenario.transferWith (Some {[ "amount" := Some Scenario.decodeVerbatim ]}))
                    Scenario.sent [Some (Scenario.VString "100")]
                    (External "abi: cannot pack value")) None).
    + apply argValues_decodesTo. vm_compute. reflexivity.
    + vm_compute. reflexivity.
Defined.

Lemma builders_no_arguments_witness :
  MakeTopics (Cases.bare, Scenario.sent) =
    Done ((Some [Scenario.H], None), (Cases.bare, Scenario.sent)) /\
  MakeData (Cases.bare, Scenario.sent) =
    Done ((Some [], None), (Cases.bare, Scenario.sent)).
Proof.
  pose proof (builders_no_arguments (Address := Z) Cases.bare Scenario.sent) as Hbare.
  destruct Hbare as [Htopics Hdata]; [intros h; reflexivity|].
  split.
  - apply Htopics. reflexivity.
  - apply (Hdata (Some [])); reflexivity.
Defined.

Lemma attribute_order_irrelevant_witness :
  exists r,
    MakeData (Scenario.transfer, Scenario.sent) =
      Done (r, (Scenario.transfer, Scenario.sent)) /\
    MakeData (Scenario.transfer, Cases.sentReversed) =
      Done (r, (Scenario.transfer, Cases.sentReversed)).
Proof.
  apply (attribute_order_irrelevant (Address := Z) Scenario.transfer
           Scenario.sent Cases.sentReversed).
  - reflexivity.
  - simpl. apply perm_swap.
  - simpl. apply NoDup_cons. split.
    + intros Hin. apply list_elem_of_singleton in Hin. discriminate.
    + apply NoDup_singleton.
Defined.

Lemma later_attributes_ignored_witness :
  MakeTopics (Scenario.transfer,
              withMore [ {| Key := "from"; Value := "0xBB" |} ] Scenario.sent) =
    Done ((Some [Scenario.H; 170], None),
          (Scenario.transfer,
           withMore [ {| Key := "from"; Value := "0xBB" |} ] Scenario.sent)).
Proof.
  apply (proj1 (later_attributes_ignored (Address := Z) Scenario.transfer Scenario.sent
                  [ {| Key := "from"; Value := "0xBB" |} ])).
  vm_compute. reflexivity.
Defined.

Lemma builders_success_implies_valid_witness :
  ValidateAttributes (Scenario.transfer, Scenario.sent) =
    Done (None, (Scenario.transfer, Scenario.sent)).
Proof.
  apply (builders_success_implies_valid (Address := Z) Scenario.transfer Scenario.sent
           [Scenario.H; 170] (Some (Scenario.word32 100))).
  - simpl. apply NoDup_cons. split.
    + intros Hin. apply list_elem_of_singleton in Hin. discriminate.
    + apply NoDup_singleton.
  - vm_compute. reflexivity.
  - vm_compute. reflexivity.
Defined.

Lemma override_insert_witness :
  exists r,
    getValueDecoder "from" (withDecoders (Some ∅) Scenario.transfer, Scenario.sent) =
      Done (r, (withDecoders (Some ∅) Scenario.transfer, Scenario.sent)) /\
    getValueDecoder "from"
        (withDecoders (Some (<[ "amount" := Some Scenario.decodeVerbatim ]> ∅))
           Scenario.transfer, Scenario.sent) =
      Done (r, (withDecoders (Some (<[ "amount" := Some Scenario.decodeVerbatim ]> ∅))
                  Scenario.transfer, Scenario.sent)).
Proof.
  apply (proj2 (override_insert (Address := Z) Scenario.transfer Scenario.sent ∅
                  "amount" Scenario.decodeVerbatim)).
  discriminate.
Defined.

Lemma NewPrecompileEvent_methods_witness :
  [Scenario.H; 170] !! 0%nat = Some Scenario.H /\
  length [Scenario.H; 170] = 2%nat.
Proof.
  destruct (NewPrecompileEvent_methods (Address := Z) fst snd
              (Cases.flagged true) (Cases.flagged false)
              7 Cases.transferEvent None Scenario.sent)
    as (_ & Htopics & _).
  apply Htopics; [intros h; reflexivity|].
  vm_compute. reflexivity.
Defined.

(** ** The declared types of the arguments *)

Section DeclaredTypes.

Context {Address : Type} `{imports : Imports Hash abiType dyn}.

Abbreviation descriptor := (@PrecompileEvent Address Hash abiType dyn).

Lemma argValues_names (pe pe' : descriptor) (event : Event)
    (args args' : list (Argument abiType)) :
  customValueDecoders pe' = customValueDecoders pe ->
  Name <$> args' = Name <$> args ->
  argValues pe' event args' = argValues pe event args.
Proof.
  intros Hcustom. revert args'.
  induction args as [|arg rest IH]; intros [|arg' rest'] Hnames; simpl in *;
    try discriminate; [done|].
  injection Hnames as Hname Hrest.
  assert (Harg : argValue pe' event arg' = argValue pe event arg).
  { unfold argValue. by rewrite Hname, Hcustom. }
  by rewrite Harg, (IH rest' Hrest).
Qed.

(** The topics do not depend on the types the descriptor declares for its
    indexed arguments: two descriptors with the same identifier, the same
    overrides and indexed arguments of the same names in the same order get
    the same topics, or the same error, from every event. *)
Theorem MakeTopics_ignores_declared_types (pe pe' : descriptor) (event : Event) :
  id pe' = id pe ->
  customValueDecoders pe' = customValueDecoders pe ->
  Name <$> indexedInputs pe' = Name <$> indexedInputs pe ->
  exists r, MakeTopics (pe, event) = Done (r, (pe, event)) /\
            MakeTopics (pe', event) = Done (r, (pe', event)).
Proof.
  intros Hid Hcustom Hnames. rewrite !MakeTopics_run.
  eexists. split; [done|]. unfold topicsOf.
  by rewrite Hid, (argValues_names pe pe' event _ _ Hcustom Hnames).
Qed.

End DeclaredTypes.

Lemma MakeTopics_ignores_declared_types_witness :
  exists r,
    MakeTopics (Scenario.transfer, Scenario.sent) =
      Done (r, (Scenario.transfer, Scenario.sent)) /\
    MakeTopics (Cases.retyped, Scenario.sent) = Done (r, (Cases.retyped, Scenario.sent)).
Proof.
  apply (MakeTopics_ignores_declared_types (Address := Z) Scenario.transfer Cases.retyped
           Scenario.sent); reflexivity.
Defined.

(** ** Two calls *)

Section TwoCalls.

Context {Address Hash abiType dyn : Type}.

(** What the imported functions answer during the first call and during
    the second one. *)
Variables first second : Imports Hash abiType dyn.

Abbreviation descriptor := (@PrecompileEvent Address Hash abiType dyn).

Lemma argValues_alike (pe pe' : descriptor) (event : Event) (args : list (Argument abiType)) :
  (forall attr, attr ∈ Attributes event ->
     alike (mapIndex (customValueDecoders pe) (Key attr))
           (mapIndex (customValueDecoders pe') (Key attr)) (Value attr) /\
     alike (mapIndex (defaultCosmosValueDecoders (Imports := first)) (Key attr))
           (mapIndex (defaultCosmosValueDecoders (Imports := second)) (Key attr))
           (Value attr)) ->
  argValues (imports := first) pe event args = argValues (imports := second) pe' event args.
Proof.
  intros Halike. induction args as [|arg rest IH]; simpl; [done|].
  assert (Harg : argValue (imports := first) pe event arg =
                 argValue (imports := second) pe' event arg).
  { unfold argValue.
    destruct (firstAttribute (Attributes event) (Name arg)) as [attr|] eqn:Hattr; [|done].
    apply firstAttribute_elem in Hattr as [Hin _].
    destruct (Halike attr Hin) as [Hcustom Hdefault]. unfold resolve, alike in *.
    destruct (mapIndex (customValueDecoders pe) (Key attr)) as [f|],
             (mapIndex (customValueDecoders pe') (Key attr)) as [f'|]; try done.
    - by rewrite Hcustom.
    - destruct (mapIndex (defaultCosmosValueDecoders (Imports := first)) (Key attr)) as [g|],
               (mapIndex (defaultCosmosValueDecoders (Imports := second)) (Key attr)) as [g'|];
        try done.
      by rewrite Hdefault. }
  by rewrite Harg, IH.
Qed.

Lemma abi_topics_alike (filter : list (any dyn)) :
  (forall value, topicRule (Imports := first) value = topicRule (Imports := second) value) ->
  abi_topics (imports := first) filter = abi_topics (imports := second) filter.
Proof.
  intros Hrule. induction filter as [|rule rest IH]; simpl; [done|].
  by rewrite Hrule, IH.
Qed.

(** C6.  The builders bring in no chance of their own: two calls return the
    same topics, the same data and the same error whenever they are given
    the same identifier, the same arguments and the same event, the tables
    of decoders of both calls hold decode functions under the same keys,
    and what the calls ask of others is answered alike both times, that is
    the decoders on the values of the event's attributes of their key, the
    ABI's topic rule and [PackValues].  Two calls with identical inputs and
    identical tables of deterministic decoders are such calls. *)
Theorem builders_deterministic_calls (pe pe' : descriptor) (event : Event) :
  id pe' = id pe ->
  indexedInputs pe' = indexedInputs pe ->
  nonIndexedInputs pe' = nonIndexedInputs pe ->
  (forall attr, attr ∈ Attributes event ->
     alike (mapIndex (customValueDecoders pe) (Key attr))
           (mapIndex (customValueDecoders pe') (Key attr)) (Value attr) /\
     alike (mapIndex (defaultCosmosValueDecoders (Imports := first)) (Key attr))
           (mapIndex (defaultCosmosValueDecoders (Imports := second)) (Key attr))
           (Value attr)) ->
  hashDyn (Imports := first) (id pe) = hashDyn (Imports := second) (id pe) ->
  (forall value, topicRule (Imports := first) value = topicRule (Imports := second) value) ->
  (forall values,
     PackValues (Imports := first) (nonIndexedInputs pe) values =
     PackValues (Imports := second) (nonIndexedInputs pe) values) ->
  (exists r, MakeTopics (imports := first) (pe, event) = Done (r, (pe, event)) /\
             MakeTopics (imports := second) (pe', event) = Done (r, (pe', event))) /\
  (exists r, MakeData (imports := first) (pe, event) = Done (r, (pe, event)) /\
             MakeData (imports := second) (pe', event) = Done (r, (pe', event))).
Proof.
  intros Hid Hindexed Hnon Halike Hbox Hrule Hpack.
  rewrite !MakeTopics_run, !MakeData_run.
  split; eexists; (split; [done|]).
  - unfold topicsOf. rewrite Hindexed, Hid.
    rewrite <- (argValues_alike pe pe' event _ Halike).
    destruct (argValues (imports := first) pe event (indexedInputs pe)) as [values|]; [|done].
    by rewrite <- Hbox, <- (abi_topics_alike _ Hrule).
  - unfold dataOf. rewrite Hnon.
    rewrite <- (argValues_alike pe pe' event _ Halike).
    destruct (argValues (imports := first) pe event (nonIndexedInputs pe)) as [values|];
      [|done].
    by rewrite <- Hpack.
Qed.

End TwoCalls.

Lemma builders_deterministic_calls_witness :
  (exists r,
     MakeTopics (imports := Scenario.transferImports) (Scenario.transfer, Scenario.sent) =
       Done (r, (Scenario.transfer, Scenario.sent)) /\
     MakeTopics (imports := Cases.secondCall) (Scenario.transferWith (Some ∅), Scenario.sent) =
       Done (r, (Scenario.transferWith (Some ∅), Scenario.sent))) /\
  (exists r,
     MakeData (imports := Scenario.transferImports) (Scenario.transfer, Scenario.sent) =
       Done (r, (Scenario.transfer, Scenario.sent)) /\
     MakeData (imports := Cases.secondCall) (Scenario.transferWith (Some ∅), Scenario.sent) =
       Done (r, (Scenario.transferWith (Some ∅), Scenario.sent))).
Proof.
  apply (builders_deterministic_calls (Address := Z) Scenario.transferImports Cases.secondCall
           Scenario.transfer (Scenario.transferWith (Some ∅)) Scenario.sent).
  - reflexivity.
  - reflexivity.
  - reflexivity.
  - intros attr Hin. simpl in Hin.
    apply elem_of_cons in Hin as [->|Hin];
      [|apply list_elem_of_singleton in Hin as ->]; vm_compute; split; reflexivity.
  - reflexivity.
  - intros value. reflexivity.
  - intros values. reflexivity.
Defined.
